(** * MicroBlaze target support of GDB: prologue scanner, return values,
      DWARF register map

    A shallow embedding of [gdb/microblaze-tdep.c].  Addresses
    ([CORE_ADDR], an unsigned 64-bit integer) are numbers of [N] with the
    wrap-around written out; C [int]s are numbers of [Z]; byte buffers are
    lists of [Byte.byte]; the fixed-size arrays of the source are lists read
    and written by index; the register cache is a finite map.  Everything
    the file takes from the rest of GDB (target memory, the opcode decoder,
    the symbol and line tables) is a field of the class [Target]. *)

From Stdlib Require Import ZArith NArith Bool Lia.
From Stdlib Require Import Strings.Byte.
From stdpp Require Import base option list gmap strings.

Local Open Scope Z_scope.

(** ** Machine integers *)

(** [CORE_ADDR] is [uint64_t]. *)
Definition CORE_ADDR := N.
Bind Scope N_scope with CORE_ADDR.

Definition CORE_ADDR_MODULUS : N := (2 ^ 64)%N.

(** Unsigned 64-bit addition and subtraction, as [+=] and [-=] on a
    [CORE_ADDR] compute them. *)
Definition core_addr_add (a b : CORE_ADDR) : CORE_ADDR :=
  ((a + b) mod CORE_ADDR_MODULUS)%N.

Definition core_addr_sub (a b : CORE_ADDR) : CORE_ADDR :=
  Z.to_N ((Z.of_N a - Z.of_N b) mod Z.of_N CORE_ADDR_MODULUS).

(** A C [int]: 32 bits, two's complement. *)
Definition int_wrap (z : Z) : Z := (z + 2 ^ 31) mod 2 ^ 32 - 2 ^ 31.

Definition int_neg (a : Z) : Z := int_wrap (- a).
Definition int_sub (a b : Z) : Z := int_wrap (a - b).

(** ** Constants of the headers *)

(** [INST_WORD_SIZE]: one instruction is four bytes (the fetch below reads
    a four-byte buffer). *)
Definition INST_WORD_SIZE : N := 4%N.

(** The stack pointer is r1 ("adjustments to the stack pointer (r1)"). *)
Definition REG_SP : Z := 1.
Definition MICROBLAZE_SP_REGNUM : Z := 1.

(** The first argument register is r5 ("add rd, r5, r0"). *)
Definition MICROBLAZE_FIRST_ARGREG : Z := 5.

(** Return values start in r3 ("Integers up to four bytes are stored in
    r3"). *)
Definition MICROBLAZE_RETVAL_REGNUM : Z := 3.

Definition MICROBLAZE_REGISTER_SIZE : nat := 4.

(** [ARRAY_SIZE (microblaze_register_names)]: 32 general registers, then
    rpc ... rshr. *)
Definition MICROBLAZE_NUM_REGS : nat := 59.

(** ** Instructions *)

(** [enum microblaze_instr], restricted to the enumerators this file tests
    for; every other enumerator of the opcode table is [other_inst]. *)
Inductive microblaze_instr : Set :=
  | add | addk | addi | addik | sw | swi | rtsd | rtid | other_inst.

#[global] Instance microblaze_instr_eq_dec : EqDecision microblaze_instr.
Proof. solve_decision. Defined.

(** What [microblaze_decode_insn] hands back: the opcode it returns and the
    four [int]s it writes through its pointer arguments. *)
Record decoded_insn : Set := Decoded {
  d_op : microblaze_instr;
  d_rd : Z;
  d_ra : Z;
  d_rb : Z;
  d_imm : Z
}.

Definition op_is (op x : microblaze_instr) : bool := bool_decide (op = x).

Definition IS_RETURN (op : microblaze_instr) : bool :=
  op_is op rtsd || op_is op rtid.

Definition IS_UPDATE_SP (op : microblaze_instr) (rd ra : Z) : bool :=
  (op_is op addik || op_is op addi) && (rd =? REG_SP) && (ra =? REG_SP).

Definition IS_SPILL_SP (op : microblaze_instr) (rd ra : Z) : bool :=
  (op_is op swi || op_is op sw) && (rd =? REG_SP) && (ra =? REG_SP).

Definition IS_SPILL_REG (op : microblaze_instr) (rd ra : Z) : bool :=
  (op_is op swi || op_is op sw) && negb (rd =? REG_SP) && (ra =? REG_SP).

Definition IS_ALSO_SPILL_REG (op : microblaze_instr) (rd ra rb : Z) : bool :=
  (op_is op swi || op_is op sw) && negb (rd =? REG_SP) && (ra =? 0)
  && (rb =? REG_SP).

Definition IS_SETUP_FP (op : microblaze_instr) (ra rb : Z) : bool :=
  (op_is op add || op_is op addik || op_is op addk) && (ra =? REG_SP)
  && (rb =? 0).

Definition IS_SPILL_REG_FP (op : microblaze_instr) (rd ra fpregnum : Z)
  : bool :=
  (op_is op swi || op_is op sw) && negb (rd =? REG_SP) && (ra =? fpregnum)
  && negb (ra =? 0).

Definition IS_SAVE_HIDDEN_PTR (op : microblaze_instr) (rd ra rb : Z) : bool :=
  (op_is op add || op_is op addik) && (ra =? MICROBLAZE_FIRST_ARGREG)
  && (rb =? 0).

(** ** The frame cache *)

(** [struct microblaze_frame_cache], by the fields the file uses.  The
    table of saved registers ([saved_regs]) belongs to the generic unwinder
    and is left out. *)
Record microblaze_frame_cache : Set := FrameCache {
  base : CORE_ADDR;
  pc : CORE_ADDR;
  frameless_p : Z;
  framesize : Z;
  fp_regnum : Z;
  register_offsets : list Z
}.

Definition set_framesize (v : Z) (c : microblaze_frame_cache) :=
  FrameCache (base c) (pc c) (frameless_p c) v (fp_regnum c)
             (register_offsets c).

Definition set_frameless_p (v : Z) (c : microblaze_frame_cache) :=
  FrameCache (base c) (pc c) v (framesize c) (fp_regnum c)
             (register_offsets c).

Definition set_fp_regnum (v : Z) (c : microblaze_frame_cache) :=
  FrameCache (base c) (pc c) (frameless_p c) (framesize c) v
             (register_offsets c).

(** [cache->register_offsets[rd] = v].  The decoder's register fields are
    five bits wide, so the index is inside the array; an index outside it
    (which C leaves undefined) changes nothing here. *)
Definition set_register_offset (rd v : Z) (c : microblaze_frame_cache) :=
  FrameCache (base c) (pc c) (frameless_p c) (framesize c) (fp_regnum c)
             (if 0 <=? rd then <[Z.to_nat rd := v]> (register_offsets c)
              else register_offsets c).

(** [microblaze_alloc_frame_cache]: zeroed storage, "frameless until proven
    otherwise"; [microblaze_frame_cache] then clears every offset to -1. *)
Definition microblaze_alloc_frame_cache : microblaze_frame_cache :=
  FrameCache 0%N 0%N 1 0 0 (replicate MICROBLAZE_NUM_REGS 0).

Definition clear_register_offsets (c : microblaze_frame_cache) :=
  FrameCache (base c) (pc c) (frameless_p c) (framesize c) (fp_regnum c)
             (replicate MICROBLAZE_NUM_REGS (-1)).

(** ** Byte order *)

Inductive bfd_endian : Set := BFD_ENDIAN_BIG | BFD_ENDIAN_LITTLE.

Definition byte_val (b : byte) : Z := Z.of_N (Byte.to_N b).

(** [extract_unsigned_integer (buf, 4, byte_order)]. *)
Definition extract_unsigned_integer (buf : byte * byte * byte * byte)
    (byte_order : bfd_endian) : Z :=
  let '(b0, b1, b2, b3) := buf in
  match byte_order with
  | BFD_ENDIAN_BIG =>
      Z.lor (Z.shiftl (byte_val b0) 24)
        (Z.lor (Z.shiftl (byte_val b1) 16)
           (Z.lor (Z.shiftl (byte_val b2) 8) (byte_val b3)))
  | BFD_ENDIAN_LITTLE =>
      Z.lor (Z.shiftl (byte_val b3) 24)
        (Z.lor (Z.shiftl (byte_val b2) 16)
           (Z.lor (Z.shiftl (byte_val b1) 8) (byte_val b0)))
  end.

(** ** What the scanner takes from the rest of GDB *)

(** The collaborators of this file, none of them defined in it:
    - [target_read_code pc] reads the four bytes at [pc] from target
      memory; [None] stands for the non-zero status of a failed read;
    - [gdbarch_byte_order] is the byte order of the target;
    - [microblaze_decode_insn] is the decoder of the opcode table;
    - [find_pc_partial_function pc] gives the status, the start and the
      end of the function around [pc];
    - [find_pc_line pc] gives the [end] field of the line-table entry. *)
Class Target : Type := {
  target_read_code : CORE_ADDR -> option (byte * byte * byte * byte);
  gdbarch_byte_order : bfd_endian;
  microblaze_decode_insn : Z -> decoded_insn;
  find_pc_partial_function : CORE_ADDR -> bool * CORE_ADDR * CORE_ADDR;
  find_pc_line : CORE_ADDR -> CORE_ADDR
}.

(** "If we can't read the instruction at PC, return zero." *)
Definition microblaze_fetch_instruction `{Target} (pc : CORE_ADDR) : Z :=
  match target_read_code pc with
  | None => 0
  | Some buf => extract_unsigned_integer buf gdbarch_byte_order
  end.

(** ** The prologue scanner *)

(** The cache and the three locals the loop of
    [microblaze_analyze_prologue] carries from one instruction to the
    next. *)
Record scan_state : Set := ScanState {
  st_cache : microblaze_frame_cache;
  save_hidden_pointer_found : bool;
  non_stack_instruction_found : bool;
  prologue_end_addr : CORE_ADDR
}.

(** How one pass through the loop body ends. *)
Inductive loop_step : Set :=
  | Continue (st : scan_state)
  | Break (st : scan_state).

(** How the loop ends: its condition [addr < stop] failed, or a [break]. *)
Inductive loop_exit : Set := ran_to_stop | left_by_break.

(** The state a pass through the body leaves, either way. *)
Definition step_state (s : loop_step) : scan_state :=
  match s with
  | Continue st => st
  | Break st => st
  end.

(** The tail shared by the recognised prologue instructions other than the
    stack adjustment:
    [save_hidden_pointer_found = shp;
     if (!cache->framesize) non_stack_instruction_found = 0; continue;] *)
Definition continue_prologue (shp : bool) (cache : microblaze_frame_cache)
    (st : scan_state) : loop_step :=
  Continue (ScanState cache shp
              (if framesize cache =? 0 then false
               else non_stack_instruction_found st)
              (prologue_end_addr st)).

(** [(unsigned) insn >> 26] *)
Definition ctrl_op_of (insn : Z) : Z := Z.shiftr (Z.land insn 0xffffffff) 26.

(** The body of the [for] loop at address [addr], from the decoding of the
    fetched word [insn] on. *)
Definition scan_insn `{Target} (insn : Z) (addr : CORE_ADDR)
    (st : scan_state) : loop_step :=
  let d := microblaze_decode_insn insn in
  let op := d_op d in
  let rd := d_rd d in
  let ra := d_ra d in
  let rb := d_rb d in
  let imm := d_imm d in
  let cache := st_cache st in
  if IS_UPDATE_SP op rd ra then
    if negb (framesize cache =? 0) then Break st
    else
      Continue (ScanState (set_frameless_p 0
                             (set_framesize (int_neg imm) cache))
                  false false (prologue_end_addr st))
  else if IS_SPILL_SP op rd ra then
    continue_prologue false (set_register_offset rd imm cache) st
  else if IS_SPILL_REG op rd ra then
    continue_prologue false
      (set_register_offset rd (int_sub imm (framesize cache)) cache) st
  else if IS_ALSO_SPILL_REG op rd ra rb then
    continue_prologue false
      (set_register_offset rd (int_sub 0 (framesize cache)) cache) st
  else if IS_SETUP_FP op ra rb then
    continue_prologue false (set_fp_regnum rd cache) st
  else if IS_SPILL_REG_FP op rd ra (fp_regnum cache) then
    continue_prologue false
      (set_register_offset rd (int_sub imm (framesize cache)) cache) st
  else if IS_SAVE_HIDDEN_PTR op rd ra rb then
    continue_prologue true cache st
  else
    let st' :=
      ScanState cache (save_hidden_pointer_found st) true
        (if non_stack_instruction_found st then prologue_end_addr st
         else addr) in
    let ctrl_op := ctrl_op_of insn in
    if negb (ctrl_op =? 0x26) && negb (ctrl_op =? 0x27)
       && negb (ctrl_op =? 0x2d) && negb (ctrl_op =? 0x2e)
       && negb (ctrl_op =? 0x2f)
    then Continue st'
    else if ctrl_op =? 0x2c then Continue st'
    else Break st'.

(** The whole body: fetch the word at [addr], then the above. *)
Definition scan_body `{Target} (addr : CORE_ADDR) (st : scan_state)
  : loop_step :=
  scan_insn (microblaze_fetch_instruction addr) addr st.

(** [for (addr = ...; addr < stop; addr += INST_WORD_SIZE) body].  The
    result is the way the loop was left, the value of [addr] at that point
    and the state; [None] when [fuel] passes through the body were not
    enough. *)
Fixpoint scan_loop `{Target} (fuel : nat) (stop addr : CORE_ADDR)
    (st : scan_state) : option (loop_exit * CORE_ADDR * scan_state) :=
  if (addr <? stop)%N then
    match fuel with
    | O => None
    | S fuel' =>
        match scan_body addr st with
        | Break st' => Some (left_by_break, addr, st')
        | Continue st' =>
            scan_loop fuel' stop (core_addr_add addr INST_WORD_SIZE) st'
        end
    end
  else Some (ran_to_stop, addr, st).

(** "Initialize info about frame." *)
Definition init_frame_info (cache : microblaze_frame_cache) :=
  set_frameless_p 1
    (set_fp_regnum MICROBLAZE_SP_REGNUM (set_framesize 0 cache)).

(** The address the scan starts to decode at: the start of the function
    around [pc] when that lies before [pc]. *)
Definition scan_entry `{Target} (pc : CORE_ADDR) : CORE_ADDR :=
  let '(_, func_addr, _) := find_pc_partial_function pc in
  if (func_addr <? pc)%N then func_addr else pc.

(** What follows the loop: the retraction by one instruction when the
    hidden-pointer flag is set, and the return. *)
Definition finish_scan (st : scan_state) : CORE_ADDR :=
  if save_hidden_pointer_found st
  then core_addr_sub (prologue_end_addr st) INST_WORD_SIZE
  else prologue_end_addr st.

(** [microblaze_analyze_prologue]: the returned address and the cache as
    the call leaves it. *)
Definition microblaze_analyze_prologue `{Target} (fuel : nat)
    (pc current_pc : CORE_ADDR) (cache : microblaze_frame_cache)
  : option (CORE_ADDR * microblaze_frame_cache) :=
  let '(_, func_addr, func_end) := find_pc_partial_function pc in
  let pc := if (func_addr <? pc)%N then func_addr else pc in
  if (current_pc <? pc)%N then Some (current_pc, cache)
  else
    let cache := init_frame_info cache in
    let insn := microblaze_fetch_instruction pc in
    let d := microblaze_decode_insn insn in
    if IS_RETURN (d_op d) then Some (pc, cache)
    else
      let stop := if (current_pc <? func_end)%N then current_pc
                  else func_end in
      match scan_loop fuel stop func_addr (ScanState cache false false 0%N)
      with
      | None => None
      | Some (_, _, st) => Some (finish_scan st, st_cache st)
      end.

(** [microblaze_skip_prologue].  [cache] is the local of that name, which
    the function passes on as it finds it on the stack. *)
Definition microblaze_skip_prologue `{Target} (fuel : nat)
    (start_pc : CORE_ADDR) (cache : microblaze_frame_cache)
  : option CORE_ADDR :=
  let '(found, func_start, func_end) := find_pc_partial_function start_pc in
  let start_pc :=
    if found then
      let sal_end := find_pc_line func_start in
      if (sal_end <? func_end)%N && (start_pc <=? sal_end)%N then sal_end
      else start_pc
    else start_pc in
  match microblaze_analyze_prologue fuel func_start 0xffffffff%N cache with
  | None => None
  | Some (ostart_pc, _) =>
      Some (if (start_pc <? ostart_pc)%N then ostart_pc else start_pc)
  end.

(** ** Return values *)

(** What can end a call early: [internal_error] (also behind a failed
    [gdb_assert]), and the error a read of an unavailable register
    throws. *)
Inductive error : Set := internal_error | register_unavailable.

Inductive outcome (A : Type) : Type :=
  | Returned (a : A)
  | Raised (e : error).
Arguments Returned {A} a.
Arguments Raised {A} e.

(** Modelled from the spec: the register cache ([struct regcache]) is the
    "register read/write capability" of the debugger and is not in this
    file.  It keeps the raw bytes of each register it has a value for; a
    register is [MICROBLAZE_REGISTER_SIZE] bytes. *)
Definition cooked_read (regcache : gmap Z (list byte)) (regnum : Z)
  : outcome (list byte) :=
  match regcache !! regnum with
  | Some bytes => Returned bytes
  | None => Raised register_unavailable
  end.

Definition cooked_write (regcache : gmap Z (list byte)) (regnum : Z)
    (buf : list byte) : gmap Z (list byte) :=
  <[regnum := take MICROBLAZE_REGISTER_SIZE buf]> regcache.

(** [memcpy (buf + off, src, length src)] into the array [buf]. *)
Definition write_at (buf : list byte) (off : nat) (src : list byte)
  : list byte :=
  take off buf ++ src ++ drop (off + length src) buf.

(** [memcpy (valbuf, buf + off, n)]: the [n] bytes it copies. *)
Definition bytes_from (buf : list byte) (off n : nat) : list byte :=
  take n (drop off buf).

(** [microblaze_extract_return_value]: the bytes copied to [valbuf] for a
    type of length [len].  [buf] is the local buffer of eight bytes as the
    function finds it. *)
Definition microblaze_extract_return_value (len : Z)
    (regcache : gmap Z (list byte)) (buf : list byte)
  : outcome (list byte) :=
  if len =? 1 then
    match cooked_read regcache MICROBLAZE_RETVAL_REGNUM with
    | Raised e => Raised e
    | Returned r =>
        Returned (bytes_from (write_at buf 0 r)
                    (MICROBLAZE_REGISTER_SIZE - 1) 1)
    end
  else if len =? 2 then
    match cooked_read regcache MICROBLAZE_RETVAL_REGNUM with
    | Raised e => Raised e
    | Returned r =>
        Returned (bytes_from (write_at buf 0 r)
                    (MICROBLAZE_REGISTER_SIZE - 2) 2)
    end
  else if (len =? 4) || (len =? 8) then
    match cooked_read regcache MICROBLAZE_RETVAL_REGNUM with
    | Raised e => Raised e
    | Returned r =>
        match cooked_read regcache (MICROBLAZE_RETVAL_REGNUM + 1) with
        | Raised e => Raised e
        | Returned r' =>
            Returned (bytes_from (write_at (write_at buf 0 r) 4 r') 0
                        (Z.to_nat len))
        end
    end
  else Raised internal_error.

(** [microblaze_store_return_value]: the register cache after the call. *)
Definition microblaze_store_return_value (len : Z)
    (regcache : gmap Z (list byte)) (valbuf : list byte)
  : outcome (gmap Z (list byte)) :=
  let buf := replicate 8 x00 in
  if 4 <? len then
    if len =? 8 then
      let buf := write_at buf 0 (take 8 valbuf) in
      let regcache :=
        cooked_write regcache (MICROBLAZE_RETVAL_REGNUM + 1) (drop 4 buf) in
      Returned (cooked_write regcache MICROBLAZE_RETVAL_REGNUM buf)
    else Raised internal_error
  else
    let buf :=
      write_at buf (Z.to_nat (4 - len)) (take (Z.to_nat len) valbuf) in
    Returned (cooked_write regcache MICROBLAZE_RETVAL_REGNUM buf).

(** ** The DWARF register map *)

Definition dwarf2_to_reg_map : list Z :=
  [ 0;  1;  2;  3;
    4;  5;  6;  7;
    8;  9; 10; 11;
   12; 13; 14; 15;
   16; 17; 18; 19;
   20; 21; 22; 23;
   24; 25; 26; 27;
   28; 29; 30; 31;
   -1; -1; -1; -1;
   -1; -1; -1; -1;
   -1; -1; -1; -1;
   -1; -1; -1; -1;
   -1; -1; -1; -1;
   -1; -1; -1; -1;
   -1; -1; -1; -1;
   -1; -1; -1; -1;
   -1; -1; -1; 33;
   -1; -1; -1; -1;
   -1; -1; -1; -1;
   -1; -1 ].

(** [sizeof (int)] on the hosts GDB builds on. *)
Definition sizeof_int : Z := 4.

(** [sizeof (dwarf2_to_reg_map)]: the size of the array in bytes. *)
Definition sizeof_dwarf2_to_reg_map : Z :=
  Z.of_nat (length dwarf2_to_reg_map) * sizeof_int.

(** [microblaze_dwarf2_reg_to_regnum].  The array access
    [dwarf2_to_reg_map[reg]] is a lookup in the list: [None] is a read past
    the last element of the array, whose value C does not define. *)
Definition microblaze_dwarf2_reg_to_regnum (reg : Z) : option Z :=
  if (0 <=? reg) && (reg <? sizeof_dwarf2_to_reg_map)
  then dwarf2_to_reg_map !! Z.to_nat reg
  else Some (-1).

(** ** A target to run the scanner on *)

(** An instance of [Target] for the examples: a big-endian memory that
    holds a list of instruction words from [base] on and is unreadable
    elsewhere, one function covering [func_start, func_end), a line table
    that answers [sal_end], and a decoder for the MicroBlaze encodings the
    examples use (major opcode in the top six bits, then rd, ra, rb of five
    bits each, or a 16-bit signed immediate in the low half). *)
Definition byte_of_Z (z : Z) : byte :=
  match Byte.of_N (Z.to_N (z mod 256)) with
  | Some b => b
  | None => x00
  end.

Definition word_bytes (w : Z) : byte * byte * byte * byte :=
  (byte_of_Z (Z.shiftr w 24), byte_of_Z (Z.shiftr w 16),
   byte_of_Z (Z.shiftr w 8), byte_of_Z w).

Definition sample_read_code (base : CORE_ADDR) (words : list Z)
    (addr : CORE_ADDR) : option (byte * byte * byte * byte) :=
  if (base <=? addr)%N && ((addr - base) mod 4 =? 0)%N
  then word_bytes <$> words !! N.to_nat ((addr - base) / 4)
  else None.

Definition sample_opcode (insn : Z) : microblaze_instr :=
  let major := Z.shiftr (Z.land insn 0xffffffff) 26 in
  let minor := Z.land insn 0x7ff in
  let rd := Z.land (Z.shiftr insn 21) 0x1f in
  if major =? 0x00 then (if minor =? 0 then add else other_inst)
  else if major =? 0x04 then (if minor =? 0 then addk else other_inst)
  else if major =? 0x08 then addi
  else if major =? 0x0c then addik
  else if major =? 0x36 then (if minor =? 0 then sw else other_inst)
  else if major =? 0x3e then swi
  else if major =? 0x2d then
    (if rd =? 0x10 then rtsd else if rd =? 0x11 then rtid else other_inst)
  else other_inst.

Definition sign_extend_16 (z : Z) : Z := (z + 2 ^ 15) mod 2 ^ 16 - 2 ^ 15.

Definition sample_decode_insn (insn : Z) : decoded_insn :=
  Decoded (sample_opcode insn)
          (Z.land (Z.shiftr insn 21) 0x1f)
          (Z.land (Z.shiftr insn 16) 0x1f)
          (Z.land (Z.shiftr insn 11) 0x1f)
          (sign_extend_16 (Z.land insn 0xffff)).

Definition sample_function (func_start func_end pc : CORE_ADDR)
  : bool * CORE_ADDR * CORE_ADDR :=
  if (func_start <=? pc)%N && (pc <? func_end)%N
  then (true, func_start, func_end)
  else (false, 0%N, 0%N).

Definition sample_target (base : CORE_ADDR) (words : list Z)
    (func_start func_end sal_end : CORE_ADDR) : Target :=
  {| target_read_code := sample_read_code base words;
     gdbarch_byte_order := BFD_ENDIAN_BIG;
     microblaze_decode_insn := sample_decode_insn;
     find_pc_partial_function := sample_function func_start func_end;
     find_pc_line := fun _ => sal_end |}.

(** Instruction words: [addik r1, r1, imm], [swi rd, r1, imm],
    [add rd, r5, r0], [rtsd r15, 8] and [or r0, r0, r0] (the nop). *)
Definition enc_addik_sp (imm : Z) : Z := Z.lor 0x30210000 (Z.land imm 0xffff).
Definition enc_swi_sp (rd imm : Z) : Z :=
  Z.lor (Z.lor 0xf8010000 (Z.shiftl rd 21)) (Z.land imm 0xffff).
Definition enc_add_r5 (rd : Z) : Z := Z.lor 0x00050000 (Z.shiftl rd 21).
Definition enc_rtsd : Z := 0xb60f0008.
Definition enc_nop : Z := 0x80000000.

(** A cache as [microblaze_frame_cache] builds it for a frame. *)
Definition fresh_cache : microblaze_frame_cache :=
  clear_register_offsets microblaze_alloc_frame_cache.

(** A cache with left-over contents, as a local that was never
    initialised may hold them. *)
Definition stale_cache : microblaze_frame_cache :=
  FrameCache 7%N 9%N 1 24 19 (replicate MICROBLAZE_NUM_REGS 5).

(** ** Names for the parts of a scan *)

(** The address the loop starts at, and its bound [stop]. *)
Definition scan_start `{Target} (pc : CORE_ADDR) : CORE_ADDR :=
  let '(_, func_addr, _) := find_pc_partial_function pc in func_addr.

Definition scan_stop `{Target} (pc current_pc : CORE_ADDR) : CORE_ADDR :=
  let '(_, _, func_end) := find_pc_partial_function pc in
  if (current_pc <? func_end)%N then current_pc else func_end.

(** The test for the first special case, "we're about to return". *)
Definition entry_is_return `{Target} (pc : CORE_ADDR) : bool :=
  IS_RETURN
    (d_op (microblaze_decode_insn
             (microblaze_fetch_instruction (scan_entry pc)))).

(** The state the loop is entered with. *)
Definition scan_initial_state (cache : microblaze_frame_cache) : scan_state :=
  ScanState (init_frame_info cache) false false 0%N.

(** Stepping from an address below [stop] stays inside 64 bits. *)
Definition no_wrap (stop : CORE_ADDR) : Prop :=
  (stop + INST_WORD_SIZE <= CORE_ADDR_MODULUS)%N.

(** A call of the scanner returns [r]. *)
Definition scan_returns `{Target} (pc current_pc : CORE_ADDR)
    (cache : microblaze_frame_cache)
    (r : CORE_ADDR * microblaze_frame_cache) : Prop :=
  exists fuel, microblaze_analyze_prologue fuel pc current_pc cache = Some r.

Definition skip_prologue_returns `{Target} (start_pc : CORE_ADDR)
    (cache : microblaze_frame_cache) (r : CORE_ADDR) : Prop :=
  exists fuel, microblaze_skip_prologue fuel start_pc cache = Some r.

(** The start address as the line table leaves it in
    [microblaze_skip_prologue], before the scanner is asked. *)
Definition line_table_pc `{Target} (start_pc : CORE_ADDR) : CORE_ADDR :=
  let '(found, func_start, func_end) := find_pc_partial_function start_pc in
  if found then
    let sal_end := find_pc_line func_start in
    if (sal_end <? func_end)%N && (start_pc <=? sal_end)%N then sal_end
    else start_pc
  else start_pc.

(** The invariant of a summary: frameless means no frame size. *)
Definition frameless_has_no_size (cache : microblaze_frame_cache) : Prop :=
  frameless_p cache <> 0 -> framesize cache = 0.

(** An instruction none of the prologue patterns matches, with [fp] as the
    frame pointer found so far. *)
Definition non_stack_insn (fp : Z) (d : decoded_insn) : bool :=
  negb (IS_UPDATE_SP (d_op d) (d_rd d) (d_ra d))
  && negb (IS_SPILL_SP (d_op d) (d_rd d) (d_ra d))
  && negb (IS_SPILL_REG (d_op d) (d_rd d) (d_ra d))
  && negb (IS_ALSO_SPILL_REG (d_op d) (d_rd d) (d_ra d) (d_rb d))
  && negb (IS_SETUP_FP (d_op d) (d_ra d) (d_rb d))
  && negb (IS_SPILL_REG_FP (d_op d) (d_rd d) (d_ra d) fp)
  && negb (IS_SAVE_HIDDEN_PTR (d_op d) (d_rd d) (d_ra d) (d_rb d)).

(** What the loop knows about the recorded address while the flag
    [non_stack_instruction_found] is set: it is the address of an
    instruction the loop went through, below [stop], which none of the
    prologue patterns matched. *)
Definition tentative_recorded `{Target} (start stop a : CORE_ADDR)
    (st : scan_state) : Prop :=
  (start <= a)%N /\ ((a - start) mod 4 = 0)%N
  /\ (non_stack_instruction_found st = true ->
      (start <= prologue_end_addr st < a)%N
      /\ (prologue_end_addr st < stop)%N
      /\ ((prologue_end_addr st - start) mod 4 = 0)%N
      /\ exists fp,
           non_stack_insn fp
             (microblaze_decode_insn
                (microblaze_fetch_instruction (prologue_end_addr st)))
           = true).

(** ** Register names and types *)

Section RegisterNames.
Local Open Scope string_scope.

Definition microblaze_register_names : list string :=
  [ "r0";   "r1";  "r2";    "r3";   "r4";   "r5";   "r6";   "r7";
    "r8";   "r9";  "r10";   "r11";  "r12";  "r13";  "r14";  "r15";
    "r16";  "r17"; "r18";   "r19";  "r20";  "r21";  "r22";  "r23";
    "r24";  "r25"; "r26";   "r27";  "r28";  "r29";  "r30";  "r31";
    "rpc";  "rmsr"; "rear"; "resr"; "rfsr"; "rbtr";
    "rpvr0"; "rpvr1"; "rpvr2"; "rpvr3"; "rpvr4"; "rpvr5"; "rpvr6";
    "rpvr7"; "rpvr8"; "rpvr9"; "rpvr10"; "rpvr11";
    "redr"; "rpid"; "rzpr"; "rtlbx"; "rtlbsx"; "rtlblo"; "rtlbhi";
    "rslr"; "rshr" ].

End RegisterNames.

(** [microblaze_register_name]; [None] is the [NULL] it returns. *)
Definition microblaze_register_name (regnum : Z) : option string :=
  if (0 <=? regnum)
     && (regnum <? Z.of_nat (length microblaze_register_names))
  then microblaze_register_names !! Z.to_nat regnum
  else None.

(** The program counter is register 32 ("rpc" in the table of names). *)
Definition MICROBLAZE_PC_REGNUM : Z := 32.

(** ** Frames *)

(** What the frame functions ask the frame they are given for: its
    address in the block, its level ([frame_relative_level], -1 for the
    sentinel frame) and the number of registers of its architecture. *)
Record frame_info : Set := FrameInfo {
  get_frame_address_in_block : CORE_ADDR;
  frame_relative_level : Z;
  gdbarch_num_regs : Z
}.

Definition set_pc (v : CORE_ADDR) (c : microblaze_frame_cache) :=
  FrameCache (base c) v (frameless_p c) (framesize c) (fp_regnum c)
             (register_offsets c).

(** [for (rn = from; rn < from + count; rn++)
      cache->register_offsets[rn] = -1;] *)
Fixpoint clear_offsets_loop (from : Z) (count : nat)
    (cache : microblaze_frame_cache) : microblaze_frame_cache :=
  match count with
  | O => cache
  | S count' =>
      clear_offsets_loop (from + 1) count' (set_register_offset from (-1) cache)
  end.

(** The function [microblaze_frame_cache] (the record above has the name
    of the [struct]).  [this_cache] is the slot [*this_cache]: [None] for
    the null pointer.  The result is the cache returned and the slot as the
    call leaves it. *)
Definition microblaze_frame_cache_of (next_frame : frame_info)
    (this_cache : option microblaze_frame_cache)
  : microblaze_frame_cache * option microblaze_frame_cache :=
  match this_cache with
  | Some cache => (cache, Some cache)
  | None =>
      let cache := microblaze_alloc_frame_cache in
      let cache :=
        clear_offsets_loop 0 (Z.to_nat (gdbarch_num_regs next_frame)) cache in
      let cache := set_pc (get_frame_address_in_block next_frame) cache in
      (cache, Some cache)
  end.

(** [microblaze_frame_this_id].  [this_id] is [*this_id] as the caller
    passes it; a frame id built by [frame_id_build] is the pair of its
    arguments. *)
Definition microblaze_frame_this_id {frame_id : Type}
    (frame_id_build : CORE_ADDR -> CORE_ADDR -> frame_id)
    (next_frame : frame_info) (this_cache : option microblaze_frame_cache)
    (this_id : frame_id)
  : frame_id * option microblaze_frame_cache :=
  let '(cache, slot) := microblaze_frame_cache_of next_frame this_cache in
  if (base cache =? 0)%N then (this_id, slot)
  else (frame_id_build (base cache) (pc cache), slot).

(** [microblaze_frame_prev_register].  [trad_frame_get_prev_register] is
    the lookup of the generic unwinder, here by the register number it is
    asked for. *)
Definition microblaze_frame_prev_register {value : Type}
    (trad_frame_get_prev_register : Z -> value)
    (this_frame : frame_info) (this_cache : option microblaze_frame_cache)
    (regnum : Z) : value * option microblaze_frame_cache :=
  let '(cache, slot) := microblaze_frame_cache_of this_frame this_cache in
  if negb (frameless_p cache =? 0) then
    let regnum := if regnum =? MICROBLAZE_PC_REGNUM then 15 else regnum in
    let regnum := if regnum =? MICROBLAZE_SP_REGNUM then 1 else regnum in
    (trad_frame_get_prev_register regnum, slot)
  else (trad_frame_get_prev_register regnum, slot).

(** [microblaze_frame_base_address] *)
Definition microblaze_frame_base_address (next_frame : frame_info)
    (this_cache : option microblaze_frame_cache)
  : CORE_ADDR * option microblaze_frame_cache :=
  let '(cache, slot) := microblaze_frame_cache_of next_frame this_cache in
  (base cache, slot).

(** [microblaze_unwind_pc], from the address [pc] that the unwound
    register holds. *)
Definition microblaze_unwind_pc (next_frame : frame_info) (pc : CORE_ADDR)
  : CORE_ADDR :=
  if 0 <=? frame_relative_level next_frame then core_addr_add pc 8 else pc.

(** ** The check of a target description *)

(** The part of [microblaze_gdbarch_init] that checks the target
    description, from [tdesc_has_registers] to [if (!valid_p) return NULL].
    [tdesc_find_feature] gives the feature of a name in the description,
    [tdesc_numbered_register] tells whether a feature has a register of a
    name; [num_core_regs], [slr_regnum] and [shr_regnum] are the constants
    [MICROBLAZE_NUM_CORE_REGS], [MICROBLAZE_SLR_REGNUM] and
    [MICROBLAZE_SHR_REGNUM] of the header.  The result [false] is the
    [return NULL]. *)
Fixpoint core_registers_valid {feature : Type}
    (tdesc_numbered_register : feature -> Z -> option string -> bool)
    (f : feature) (i : Z) (count : nat) (valid_p : bool) : bool :=
  match count with
  | O => valid_p
  | S count' =>
      core_registers_valid tdesc_numbered_register f (i + 1) count'
        (valid_p
         && tdesc_numbered_register f i
              (microblaze_register_names !! Z.to_nat i))
  end.

Definition target_description_accepted {feature : Type}
    (tdesc_has_registers : bool)
    (tdesc_find_feature : string -> option feature)
    (tdesc_numbered_register : feature -> Z -> option string -> bool)
    (num_core_regs slr_regnum shr_regnum : Z) : bool :=
  if tdesc_has_registers then
    match tdesc_find_feature "org.gnu.gdb.microblaze.core"%string with
    | None => false
    | Some core =>
        let valid_p :=
          core_registers_valid tdesc_numbered_register core 0
            (Z.to_nat num_core_regs) true in
        let valid_p :=
          match
            tdesc_find_feature "org.gnu.gdb.microblaze.stack-protect"%string
          with
          | Some sp =>
              let valid_p := true in
              let valid_p :=
                valid_p
                && tdesc_numbered_register sp slr_regnum (Some "rslr"%string)
              in
              valid_p
              && tdesc_numbered_register sp shr_regnum (Some "rshr"%string)
          | None => valid_p
          end in
        valid_p
    end
  else true.

(** ** Targets that differ in memory only *)

Definition with_memory (T : Target)
    (mem : CORE_ADDR -> option (byte * byte * byte * byte)) : Target :=
  {| target_read_code := mem;
     gdbarch_byte_order := @gdbarch_byte_order T;
     microblaze_decode_insn := @microblaze_decode_insn T;
     find_pc_partial_function := @find_pc_partial_function T;
     find_pc_line := @find_pc_line T |}.

(** What the loop reads of its state: the frame size, the frame pointer
    and its three locals. *)
Definition scan_view (st : scan_state) : Z * Z * bool * bool * CORE_ADDR :=
  (framesize (st_cache st), fp_regnum (st_cache st),
   save_hidden_pointer_found st, non_stack_instruction_found st,
   prologue_end_addr st).

Definition is_break (s : loop_step) : bool :=
  match s with
  | Break _ => true
  | Continue _ => false
  end.

Definition step_view (s : loop_step)
  : bool * (Z * Z * bool * bool * CORE_ADDR) :=
  (is_break s, scan_view (step_state s)).

(** The opcodes of a store. *)
Definition is_store (op : microblaze_instr) : bool :=
  op_is op swi || op_is op sw.

(** Where the frame size of a summary comes from. *)
Definition frame_size_source `{Target} (stop : CORE_ADDR)
    (cache : microblaze_frame_cache) : Prop :=
  (frameless_p cache = 1 /\ framesize cache = 0)
  \/ (frameless_p cache = 0
      /\ exists a,
           (a < stop)%N
           /\ let d := microblaze_decode_insn (microblaze_fetch_instruction a)
              in IS_UPDATE_SP (d_op d) (d_rd d) (d_ra d) = true
                 /\ framesize cache = int_neg (d_imm d)).

(** Where the frame pointer of a summary comes from. *)
Definition frame_pointer_source `{Target} (stop : CORE_ADDR)
    (cache : microblaze_frame_cache) : Prop :=
  fp_regnum cache = MICROBLAZE_SP_REGNUM
  \/ exists a,
       (a < stop)%N
       /\ let d := microblaze_decode_insn (microblaze_fetch_instruction a)
          in IS_SETUP_FP (d_op d) (d_ra d) (d_rb d) = true
             /\ fp_regnum cache = d_rd d.

(** * Properties *)

(** ** Sanity checks of the embedding *)

Example fetch_addik :
  @microblaze_fetch_instruction
    (sample_target 0x1000 [enc_addik_sp (-8)] 0x1000 0x1004 0%N) 0x1000%N
  = 0x3021fff8.
Proof. vm_compute. reflexivity. Qed.

Example decode_addik :
  sample_decode_insn 0x3021fff8 = Decoded addik 1 1 31 (-8).
Proof. vm_compute. reflexivity. Qed.

Example decode_swi :
  sample_decode_insn (enc_swi_sp 15 0) = Decoded swi 15 1 0 0.
Proof. vm_compute. reflexivity. Qed.

Example decode_rtsd :
  d_op (sample_decode_insn enc_rtsd) = rtsd.
Proof. vm_compute. reflexivity. Qed.

(** A usual prologue: adjust, spill r15, then the body up to the return. *)
Example scan_usual_prologue :
  @microblaze_analyze_prologue
    (sample_target 0x1000
       [enc_addik_sp (-8); enc_swi_sp 15 0; enc_nop; enc_rtsd]
       0x1000 0x1010 0%N)
    10 0x1000%N 0xffffffff%N fresh_cache
  = Some (0x1008%N,
          FrameCache 0%N 0%N 0 8 1
            (<[15%nat := -8]> (replicate MICROBLAZE_NUM_REGS (-1)))).
Proof. vm_compute. reflexivity. Qed.

(** ** The DWARF register map *)

Lemma sizeof_dwarf2_to_reg_map_val : sizeof_dwarf2_to_reg_map = 312.
Proof. reflexivity. Qed.

Lemma dwarf2_reg_outside_guard (reg : Z) :
  reg < 0 \/ 312 <= reg -> microblaze_dwarf2_reg_to_regnum reg = Some (-1).
Proof.
  intros Hreg. unfold microblaze_dwarf2_reg_to_regnum.
  rewrite sizeof_dwarf2_to_reg_map_val.
  destruct (0 <=? reg) eqn:H0; destruct (reg <? 312) eqn:H1;
    simpl; try reflexivity; lia.
Qed.

Lemma dwarf2_reg_in_table (reg : Z) :
  0 <= reg < 78 ->
  microblaze_dwarf2_reg_to_regnum reg = dwarf2_to_reg_map !! Z.to_nat reg
  /\ is_Some (dwarf2_to_reg_map !! Z.to_nat reg).
Proof.
  intros Hreg. unfold microblaze_dwarf2_reg_to_regnum.
  rewrite sizeof_dwarf2_to_reg_map_val.
  replace (0 <=? reg) with true by lia.
  replace (reg <? 312) with true by lia.
  split; [reflexivity|]. apply lookup_lt_is_Some. simpl. lia.
Qed.

Lemma dwarf2_reg_past_table (reg : Z) :
  78 <= reg < 312 -> microblaze_dwarf2_reg_to_regnum reg = None.
Proof.
  intros Hreg. unfold microblaze_dwarf2_reg_to_regnum.
  rewrite sizeof_dwarf2_to_reg_map_val.
  replace (0 <=? reg) with true by lia.
  replace (reg <? 312) with true by lia.
  apply lookup_ge_None. simpl. lia.
Qed.

Example dwarf2_reg_rmsr : microblaze_dwarf2_reg_to_regnum 67 = Some 33.
Proof. reflexivity. Qed.

(** C1.  The claim: every DWARF register number outside the table maps to
    -1.  The guard of [microblaze_dwarf2_reg_to_regnum] compares the
    number with the size of the table in bytes (312) and not with its 78
    elements: number 78, the first one outside the table, passes the guard,
    and the function reads the array past its end instead of returning
    -1. *)
Theorem dwarf2_reg_78_read_past_table :
  (0 <=? 78) && (78 <? sizeof_dwarf2_to_reg_map) = true
  /\ length dwarf2_to_reg_map = 78%nat
  /\ microblaze_dwarf2_reg_to_regnum 78 = None
  /\ microblaze_dwarf2_reg_to_regnum 78 <> Some (-1).
Proof. repeat split; try reflexivity. discriminate. Qed.

(** ** Return values *)

Lemma write_at_whole (buf src : list byte) :
  length src = length buf -> write_at buf 0 src = src.
Proof.
  intros Hlen. unfold write_at. simpl.
  rewrite drop_ge by lia. apply app_nil_r.
Qed.

Lemma cooked_read_write_same regcache regnum (buf : list byte) :
  cooked_read (cooked_write regcache regnum buf) regnum
  = Returned (take MICROBLAZE_REGISTER_SIZE buf).
Proof. unfold cooked_read, cooked_write. by rewrite lookup_insert_eq. Qed.

Lemma cooked_read_write_other regcache regnum regnum' (buf : list byte) :
  regnum <> regnum' ->
  cooked_read (cooked_write regcache regnum buf) regnum'
  = cooked_read regcache regnum'.
Proof.
  intros Hne. unfold cooked_read, cooked_write.
  by rewrite lookup_insert_ne.
Qed.

(** Two register reads fill the eight bytes of the local buffer. *)
Lemma read_two_registers (buf r r' : list byte) :
  length buf = 8%nat -> length r = 4%nat -> length r' = 4%nat ->
  bytes_from (write_at (write_at buf 0 r) 4 r') 0 8 = r ++ r'.
Proof.
  intros Hbuf Hr Hr'.
  do 9 (destruct buf as [|? buf]; try discriminate).
  do 5 (destruct r as [|? r]; try discriminate).
  do 5 (destruct r' as [|? r']; try discriminate).
  reflexivity.
Qed.

(** C8.  An 8-byte value stored as a return value (in r3 and r4) and then
    extracted as an 8-byte return value from the resulting registers comes
    back byte for byte, whatever the register cache and the local buffer of
    the extraction held before. *)
Theorem store_then_extract_8_bytes (regcache : gmap Z (list byte))
    (valbuf buf : list byte) :
  length valbuf = 8%nat ->
  length buf = 8%nat ->
  exists regcache',
    microblaze_store_return_value 8 regcache valbuf = Returned regcache'
    /\ regcache' !! MICROBLAZE_RETVAL_REGNUM = Some (take 4 valbuf)
    /\ regcache' !! (MICROBLAZE_RETVAL_REGNUM + 1) = Some (drop 4 valbuf)
    /\ microblaze_extract_return_value 8 regcache' buf = Returned valbuf.
Proof.
  intros Hval Hbuf.
  unfold microblaze_store_return_value. simpl.
  rewrite firstn_all2 by lia.
  rewrite write_at_whole by (simpl; lia).
  eexists. split; [reflexivity|].
  assert (Hhi : take MICROBLAZE_REGISTER_SIZE (drop 4 valbuf)
                = drop 4 valbuf).
  { apply firstn_all2. rewrite length_drop. unfold MICROBLAZE_REGISTER_SIZE.
    lia. }
  split; [|split].
  - unfold cooked_write. by rewrite lookup_insert_eq.
  - unfold cooked_write.
    rewrite lookup_insert_ne by (unfold MICROBLAZE_RETVAL_REGNUM; lia).
    rewrite lookup_insert_eq. by rewrite Hhi.
  - unfold microblaze_extract_return_value. simpl.
    rewrite cooked_read_write_same.
    rewrite cooked_read_write_other by (unfold MICROBLAZE_RETVAL_REGNUM; lia).
    rewrite cooked_read_write_same, Hhi.
    change (Z.to_nat 8) with 8%nat.
    rewrite read_two_registers.
    + by rewrite take_drop.
    + exact Hbuf.
    + rewrite length_take. unfold MICROBLAZE_REGISTER_SIZE. lia.
    + rewrite length_drop. lia.
Qed.

Lemma store_then_extract_8_bytes_witness :
  let valbuf := [x01; x23; x45; x67; x89; xab; xcd; xef] in
  exists regcache',
    microblaze_store_return_value 8 (<[3 := [xff; xff; xff; xff]]> ∅) valbuf
    = Returned regcache'
    /\ regcache' !! MICROBLAZE_RETVAL_REGNUM = Some (take 4 valbuf)
    /\ regcache' !! (MICROBLAZE_RETVAL_REGNUM + 1) = Some (drop 4 valbuf)
    /\ microblaze_extract_return_value 8 regcache' (replicate 8 x5a)
       = Returned valbuf.
Proof.
  intros valbuf.
  apply (store_then_extract_8_bytes _ valbuf (replicate 8 x5a));
    reflexivity.
Defined.

(** ** The scan loop *)

Section ScanLoop.
Context `{Target}.

Lemma analyze_prologue_eq fuel pc current_pc cache :
  microblaze_analyze_prologue fuel pc current_pc cache =
  if (current_pc <? scan_entry pc)%N then Some (current_pc, cache)
  else if entry_is_return pc then Some (scan_entry pc, init_frame_info cache)
  else
    match scan_loop fuel (scan_stop pc current_pc) (scan_start pc)
            (scan_initial_state cache) with
    | None => None
    | Some (_, _, st) => Some (finish_scan st, st_cache st)
    end.
Proof.
  unfold microblaze_analyze_prologue, scan_entry, entry_is_return,
    scan_entry, scan_stop, scan_start, scan_initial_state.
  destruct (find_pc_partial_function pc) as [[found func_addr] func_end].
  reflexivity.
Qed.

Lemma skip_prologue_eq fuel start_pc cache :
  microblaze_skip_prologue fuel start_pc cache =
  match microblaze_analyze_prologue fuel (scan_start start_pc)
          0xffffffff%N cache with
  | None => None
  | Some (ostart_pc, _) =>
      Some (if (line_table_pc start_pc <? ostart_pc)%N then ostart_pc
            else line_table_pc start_pc)
  end.
Proof.
  unfold microblaze_skip_prologue, line_table_pc, scan_start.
  destruct (find_pc_partial_function start_pc) as [[found func_addr] func_end].
  reflexivity.
Qed.

Lemma core_addr_add_no_wrap (a stop : CORE_ADDR) :
  no_wrap stop -> (a < stop)%N ->
  core_addr_add a INST_WORD_SIZE = (a + 4)%N.
Proof.
  unfold no_wrap, core_addr_add, INST_WORD_SIZE. intros Hstop Ha.
  apply N.mod_small. lia.
Qed.

Lemma scan_loop_fuel_mono fuel fuel' stop a st r :
  scan_loop fuel stop a st = Some r -> (fuel <= fuel')%nat ->
  scan_loop fuel' stop a st = Some r.
Proof.
  revert fuel' a st. induction fuel as [|fuel IH]; intros fuel' a st Hrun Hle.
  - simpl in Hrun. destruct fuel'; simpl;
      destruct (a <? stop)%N; try discriminate; exact Hrun.
  - destruct fuel' as [|fuel']; [lia|].
    simpl in *. destruct (a <? stop)%N; [|exact Hrun].
    destruct (scan_body a st); [|exact Hrun].
    apply IH; [exact Hrun|lia].
Qed.

(** The loop is bounded by [stop]: with one unit of fuel for every byte up
    to [stop] it comes to an end. *)
Lemma scan_loop_terminates stop :
  no_wrap stop ->
  forall fuel a st,
    (N.to_nat (stop - a) <= fuel)%nat -> is_Some (scan_loop fuel stop a st).
Proof.
  intros Hstop. induction fuel as [|fuel IH]; intros a st Hfuel.
  - simpl. destruct (N.ltb_spec a stop); [lia|]. by eexists.
  - simpl. destruct (N.ltb_spec a stop) as [Ha|Ha]; [|by eexists].
    destruct (scan_body a st) as [st'|st']; [|by eexists].
    rewrite (core_addr_add_no_wrap a stop) by assumption.
    apply IH. lia.
Qed.

(** Where the loop stands when it is left. *)
Lemma scan_loop_exit fuel stop a st e a' st' :
  scan_loop fuel stop a st = Some (e, a', st') ->
  match e with
  | ran_to_stop => (stop <= a')%N
  | left_by_break => (a' < stop)%N
  end.
Proof.
  revert a st. induction fuel as [|fuel IH]; intros a st; simpl;
    destruct (N.ltb_spec a stop) as [Ha|Ha]; try discriminate.
  - intros [= <- <- <-]. exact Ha.
  - destruct (scan_body a st) as [st1|st1].
    + apply IH.
    + intros [= <- <- <-]. exact Ha.
  - intros [= <- <- <-]. exact Ha.
Qed.

(** A property of the state that every pass through the body keeps, at an
    address below [stop], holds when the loop is left. *)
Lemma scan_loop_invariant (P : scan_state -> Prop) stop :
  (forall a st, (a < stop)%N -> P st -> P (step_state (scan_body a st))) ->
  forall fuel a st e a' st',
    P st -> scan_loop fuel stop a st = Some (e, a', st') -> P st'.
Proof.
  intros Hbody. induction fuel as [|fuel IH]; intros a st e a' st' HP; simpl;
    destruct (N.ltb_spec a stop) as [Ha|Ha]; try discriminate.
  - intros [= <- <- <-]. exact HP.
  - pose proof (Hbody a st Ha HP) as HP'.
    destruct (scan_body a st) as [st1|st1].
    + apply IH. exact HP'.
    + intros [= <- <- <-]. exact HP'.
  - intros [= <- <- <-]. exact HP.
Qed.

(** A scan up to [mid] that was not cut by a [break] is the first part of
    the scan up to any later [stop]. *)
Lemma scan_loop_prefix fuel mid a st a' st' :
  scan_loop fuel mid a st = Some (ran_to_stop, a', st') ->
  forall fuel' stop r, (mid <= stop)%N ->
    scan_loop fuel' stop a' st' = Some r ->
    scan_loop (fuel + fuel') stop a st = Some r.
Proof.
  revert a st. induction fuel as [|fuel IH]; intros a st Hrun fuel' stop r
    Hle Hrest.
  - simpl in Hrun. destruct (a <? mid)%N; [discriminate|].
    injection Hrun as <- <-. exact Hrest.
  - simpl in Hrun. destruct (N.ltb_spec a mid) as [Ha|Ha].
    + destruct (scan_body a st) as [st1|st1] eqn:Hstep; [|discriminate].
      simpl. destruct (N.ltb_spec a stop) as [_|Hge]; [|lia].
      rewrite Hstep. by eapply IH.
    + injection Hrun as <- <-.
      eapply scan_loop_fuel_mono; [exact Hrest|lia].
Qed.

End ScanLoop.

(** ** The scanner *)

(** Case analysis on the tests of the loop body, the outermost first. *)
Ltac body_cases :=
  unfold scan_body, scan_insn, continue_prologue; cbv zeta;
  repeat lazymatch goal with
         | |- context [step_state (if ?b then _ else _)] => destruct b eqn:?
         end;
  cbn [step_state].

Section Scanner.
Context `{Target}.

Lemma scan_stop_le pc current_pc : (scan_stop pc current_pc <= current_pc)%N.
Proof.
  unfold scan_stop.
  destruct (find_pc_partial_function pc) as [[found func_addr] func_end].
  destruct (N.ltb_spec current_pc func_end); lia.
Qed.

Lemma no_wrap_le stop stop' : (stop <= stop')%N -> no_wrap stop' -> no_wrap stop.
Proof. unfold no_wrap. lia. Qed.

Lemma no_wrap_32 : no_wrap 0xffffffff.
Proof. unfold no_wrap, CORE_ADDR_MODULUS, INST_WORD_SIZE. lia. Qed.

(** The scanner returns whenever its bound leaves room for one more step
    below 2^64. *)
Lemma analyze_prologue_returns pc current_pc cache :
  no_wrap (scan_stop pc current_pc) ->
  exists r, scan_returns pc current_pc cache r.
Proof.
  intros Hstop. unfold scan_returns.
  destruct (scan_loop_terminates _ Hstop
              (N.to_nat (scan_stop pc current_pc - scan_start pc))
              (scan_start pc) (scan_initial_state cache))
    as [[[e a] st] Hrun]; [lia|].
  setoid_rewrite analyze_prologue_eq.
  destruct (current_pc <? scan_entry pc)%N; [by exists (current_pc, cache), O|].
  destruct (entry_is_return pc); [by eexists _, O|].
  eexists _, _. rewrite Hrun. reflexivity.
Qed.

(** The result of a call does not depend on the fuel that was enough. *)
Lemma analyze_prologue_fuel_mono fuel fuel' pc current_pc cache r :
  microblaze_analyze_prologue fuel pc current_pc cache = Some r ->
  (fuel <= fuel')%nat ->
  microblaze_analyze_prologue fuel' pc current_pc cache = Some r.
Proof.
  rewrite !analyze_prologue_eq. intros Hrun Hle.
  destruct (current_pc <? scan_entry pc)%N; [exact Hrun|].
  destruct (entry_is_return pc); [exact Hrun|].
  destruct (scan_loop fuel _ _ _) as [[[e a] st]|] eqn:Hloop; [|discriminate].
  by rewrite (scan_loop_fuel_mono _ _ _ _ _ _ Hloop Hle).
Qed.

Lemma scan_returns_unique pc current_pc cache r r' :
  scan_returns pc current_pc cache r -> scan_returns pc current_pc cache r' ->
  r = r'.
Proof.
  intros [fuel Hr] [fuel' Hr'].
  apply (analyze_prologue_fuel_mono _ (fuel `max` fuel')) in Hr; [|lia].
  apply (analyze_prologue_fuel_mono _ (fuel `max` fuel')) in Hr'; [|lia].
  congruence.
Qed.

(** C9.  Where target memory cannot be read, the fetch yields the zero
    word and the loop body handles that address as it handles the zero
    word; no failure of a read reaches the scanner, which has no way to end
    but to return.  It does return: for every bound [stop] that leaves room
    for one step below 2^64, and so, whatever memory, decoder and symbol
    table are, for every scan that [microblaze_skip_prologue] starts (its
    bound is at most 0xffffffff). *)
Theorem failed_fetch_does_not_abort_scan (addr : CORE_ADDR) :
  target_read_code addr = None ->
  microblaze_fetch_instruction addr = 0
  /\ (forall st, scan_body addr st = scan_insn 0 addr st)
  /\ (forall pc current_pc cache,
        no_wrap (scan_stop pc current_pc) ->
        exists r, scan_returns pc current_pc cache r)
  /\ (forall pc cache, exists r, scan_returns pc 0xffffffff cache r).
Proof.
  intros Hfail.
  assert (Hzero : microblaze_fetch_instruction addr = 0).
  { unfold microblaze_fetch_instruction. by rewrite Hfail. }
  split; [exact Hzero|]. split; [|split].
  - intros st. unfold scan_body. by rewrite Hzero.
  - intros pc current_pc cache. apply analyze_prologue_returns.
  - intros pc cache. apply analyze_prologue_returns.
    eapply no_wrap_le; [apply scan_stop_le|apply no_wrap_32].
Qed.

(** Every pass through the body keeps "frameless means no frame size". *)
Lemma scan_body_frameless a st :
  frameless_has_no_size (st_cache st) ->
  frameless_has_no_size (st_cache (step_state (scan_body a st))).
Proof.
  unfold frameless_has_no_size. intros Hinv.
  body_cases; simpl; try exact Hinv.
  intros Hne. exfalso. apply Hne. reflexivity.
Qed.

(** C10.  In the summary a scan leaves, a set frameless flag goes with a
    zero frame size.  A call that passes the entry test starts from
    [framesize = 0], [frameless_p = 1] and clears the flag in the very step
    that assigns the frame size; a call that the entry test turns away
    ([current_pc] below the entry) leaves the cache as it was, hence with
    the property if it had it, as every cache of
    [microblaze_alloc_frame_cache] has. *)
Theorem frameless_summary_has_no_frame_size pc current_pc cache r :
  scan_returns pc current_pc cache r ->
  (scan_entry pc <= current_pc)%N \/ frameless_has_no_size cache ->
  frameless_has_no_size (snd r).
Proof.
  intros [fuel Hrun] Hin. rewrite analyze_prologue_eq in Hrun.
  destruct (N.ltb_spec current_pc (scan_entry pc)) as [Hlt|Hge].
  { injection Hrun as <-. destruct Hin as [Hle|Hinv]; [lia|exact Hinv]. }
  destruct (entry_is_return pc).
  { injection Hrun as <-. intros _. reflexivity. }
  destruct (scan_loop fuel _ _ _) as [[[e a] st]|] eqn:Hloop; [|discriminate].
  injection Hrun as <-. simpl.
  eapply (scan_loop_invariant
            (fun st => frameless_has_no_size (st_cache st))); [| |exact Hloop].
  - intros a0 st0 _. apply scan_body_frameless.
  - intros _. reflexivity.
Qed.

Lemma later_address (a b : CORE_ADDR) :
  (if (a <? b)%N then b else a) = N.max a b.
Proof. destruct (N.ltb_spec a b); lia. Qed.

(** C6.  [microblaze_skip_prologue] returns, and what it returns is the
    later of two addresses: the start address as the line table leaves it,
    and the prologue end that the scanner computes for the whole function
    (from its start, with the bound 0xffffffff).  So the result is never
    before the scanner's own prologue end, also where the line table gives
    an earlier address. *)
Theorem skip_prologue_not_before_scan start_pc cache :
  exists ostart_pc cache',
    scan_returns (scan_start start_pc) 0xffffffff cache (ostart_pc, cache')
    /\ skip_prologue_returns start_pc cache
         (N.max (line_table_pc start_pc) ostart_pc)
    /\ forall r, skip_prologue_returns start_pc cache r ->
         (ostart_pc <= r)%N /\ r = N.max (line_table_pc start_pc) ostart_pc.
Proof.
  destruct (analyze_prologue_returns (scan_start start_pc) 0xffffffff cache)
    as [[ostart_pc cache'] [fuel Hscan]].
  { eapply no_wrap_le; [apply scan_stop_le|apply no_wrap_32]. }
  exists ostart_pc, cache'. split; [by exists fuel|]. split.
  - exists fuel. rewrite skip_prologue_eq, Hscan. by rewrite later_address.
  - intros r [fuel' Hskip]. rewrite skip_prologue_eq in Hskip.
    destruct (microblaze_analyze_prologue fuel' _ _ _) as [[o c]|] eqn:Hscan';
      [|discriminate].
    assert (Heq : (o, c) = (ostart_pc, cache')).
    { eapply scan_returns_unique; [by exists fuel'|by exists fuel]. }
    injection Heq as -> ->. injection Hskip as <-.
    rewrite later_address. lia.
Qed.

(** C5 (amended).  When the instruction at the entry of the function is a
    return, the scanner returns at once, with any fuel: if [current_pc] is
    not below the entry, it returns the entry address and a frameless
    summary (flag set, frame size 0, the stack pointer as frame pointer)
    whose saved-register offsets are the ones the cache came with; if
    [current_pc] is below the entry, the test before the decoding returns
    [current_pc] and leaves the cache alone. *)
Theorem return_at_entry pc current_pc cache fuel :
  entry_is_return pc = true ->
  ((scan_entry pc <= current_pc)%N ->
     microblaze_analyze_prologue fuel pc current_pc cache
     = Some (scan_entry pc, init_frame_info cache)
     /\ frameless_p (init_frame_info cache) = 1
     /\ framesize (init_frame_info cache) = 0
     /\ fp_regnum (init_frame_info cache) = MICROBLAZE_SP_REGNUM
     /\ register_offsets (init_frame_info cache) = register_offsets cache)
  /\ ((current_pc < scan_entry pc)%N ->
       microblaze_analyze_prologue fuel pc current_pc cache
       = Some (current_pc, cache)).
Proof.
  intros Hret. rewrite analyze_prologue_eq, Hret.
  split; intros Hcmp.
  - destruct (N.ltb_spec current_pc (scan_entry pc)); [lia|].
    repeat split.
  - destruct (N.ltb_spec current_pc (scan_entry pc)); [|lia]. reflexivity.
Qed.

End Scanner.

Lemma skip_prologue_not_before_scan_witness :
  let T := sample_target 0x1000
             [enc_addik_sp (-8); enc_swi_sp 15 0; enc_nop; enc_rtsd]
             0x1000 0x1010 0x1004 in
  @line_table_pc T 0x1000 = 0x1004%N
  /\ @skip_prologue_returns T 0x1000 stale_cache 0x1008
  /\ exists ostart_pc,
       (ostart_pc <= 0x1008)%N
       /\ 0x1008%N = N.max (@line_table_pc T 0x1000) ostart_pc.
Proof.
  intros T.
  assert (Hskip : @skip_prologue_returns T 0x1000 stale_cache 0x1008)
    by (exists 4%nat; vm_compute; reflexivity).
  split; [reflexivity|]. split; [exact Hskip|].
  destruct (@skip_prologue_not_before_scan T 0x1000 stale_cache)
    as (ostart_pc & cache' & _ & _ & Hall).
  exists ostart_pc. exact (Hall _ Hskip).
Defined.

(** C5, counterexample.  A function that is one [rtsd], scanned with
    [current_pc] below its entry: the entry test returns [current_pc], not
    the entry address. *)
Lemma return_at_entry_below_entry_counterexample :
  let T := sample_target 0x1000 [enc_rtsd] 0x1000 0x1004 0 in
  @entry_is_return T 0x1000 = true
  /\ @scan_entry T 0x1000 = 0x1000%N
  /\ @scan_returns T 0x1000 0x800 fresh_cache (0x800%N, fresh_cache)
  /\ ~ (exists cache',
          @scan_returns T 0x1000 0x800 fresh_cache (0x1000%N, cache')).
Proof.
  intros T.
  assert (Hrun : @scan_returns T 0x1000 0x800 fresh_cache
                   (0x800%N, fresh_cache)) by (exists O; reflexivity).
  repeat split; try exact Hrun.
  intros [cache' Hrun'].
  pose proof (@scan_returns_unique T _ _ _ _ _ Hrun Hrun') as Heq.
  discriminate Heq.
Qed.

Lemma return_at_entry_witness :
  let T := sample_target 0x1000 [enc_rtsd] 0x1000 0x1004 0 in
  @entry_is_return T 0x1000 = true
  /\ (@scan_entry T 0x1000 <= 0xffffffff)%N
  /\ @microblaze_analyze_prologue T 0 0x1000 0xffffffff fresh_cache
     = Some (0x1000%N, init_frame_info fresh_cache).
Proof.
  intros T.
  assert (Hret : @entry_is_return T 0x1000 = true) by reflexivity.
  assert (Hle : (@scan_entry T 0x1000 <= 0xffffffff)%N)
    by (vm_compute; discriminate).
  split; [exact Hret|]. split; [exact Hle|].
  exact (proj1 (proj1 (@return_at_entry T 0x1000 0xffffffff fresh_cache 0
                         Hret) Hle)).
Defined.

Lemma failed_fetch_does_not_abort_scan_witness :
  let T := sample_target 0x1000 [enc_addik_sp (-8)] 0x1000 0x1010 0 in
  @target_read_code T 0x1004 = None
  /\ no_wrap (@scan_stop T 0x1000 0xffffffff)
  /\ @microblaze_fetch_instruction T 0x1004 = 0
  /\ exists r, @scan_returns T 0x1000 0xffffffff fresh_cache r.
Proof.
  intros T.
  assert (Hfail : @target_read_code T 0x1004 = None) by reflexivity.
  assert (Hstop : no_wrap (@scan_stop T 0x1000 0xffffffff))
    by (vm_compute; discriminate).
  destruct (@failed_fetch_does_not_abort_scan T 0x1004 Hfail)
    as (Hzero & _ & Hret & _).
  split; [exact Hfail|]. split; [exact Hstop|]. split; [exact Hzero|].
  exact (Hret 0x1000%N 0xffffffff%N fresh_cache Hstop).
Defined.

Lemma frameless_summary_has_no_frame_size_witness :
  let T := sample_target 0x1000 [enc_swi_sp 15 0; enc_rtsd] 0x1000 0x1008 0 in
  let r := (0x1004%N,
            FrameCache 0 0 1 0 1
              (<[15%nat := 0]> (replicate MICROBLAZE_NUM_REGS (-1)))) in
  @scan_returns T 0x1000 0xffffffff fresh_cache r
  /\ (@scan_entry T 0x1000 <= 0xffffffff)%N
  /\ frameless_has_no_size (snd r).
Proof.
  intros T r.
  assert (Hrun : @scan_returns T 0x1000 0xffffffff fresh_cache r)
    by (exists 4%nat; vm_compute; reflexivity).
  assert (Hle : (@scan_entry T 0x1000 <= 0xffffffff)%N)
    by (vm_compute; discriminate).
  split; [exact Hrun|]. split; [exact Hle|].
  exact (@frameless_summary_has_no_frame_size T _ _ _ _ Hrun (or_introl Hle)).
Defined.

(** ** Single steps of the loop *)

Section Steps.
Context `{Target}.

Lemma scan_loop_done fuel stop a st :
  (stop <= a)%N -> scan_loop fuel stop a st = Some (ran_to_stop, a, st).
Proof.
  intros Hge. destruct fuel; simpl; destruct (N.ltb_spec a stop); try lia;
    reflexivity.
Qed.

Lemma scan_loop_continue fuel stop a st st' :
  (a < stop)%N -> scan_body a st = Continue st' ->
  scan_loop (S fuel) stop a st
  = scan_loop fuel stop (core_addr_add a INST_WORD_SIZE) st'.
Proof.
  intros Hlt Hstep. simpl. destruct (N.ltb_spec a stop); [|lia].
  by rewrite Hstep.
Qed.

Lemma scan_loop_break fuel stop a st st' :
  (a < stop)%N -> scan_body a st = Break st' ->
  scan_loop (S fuel) stop a st = Some (left_by_break, a, st').
Proof.
  intros Hlt Hstep. simpl. destruct (N.ltb_spec a stop); [|lia].
  by rewrite Hstep.
Qed.

Lemma int_wrap_small z : - 2 ^ 31 <= z < 2 ^ 31 -> int_wrap z = z.
Proof. intros Hz. unfold int_wrap. rewrite Z.mod_small; lia. Qed.

Lemma update_sp_not_return op rd ra :
  IS_UPDATE_SP op rd ra = true -> IS_RETURN op = false.
Proof. destruct op; simpl; intros; try discriminate; reflexivity. Qed.

Lemma spill_reg_not_update_sp op rd ra :
  IS_SPILL_REG op rd ra = true ->
  IS_UPDATE_SP op rd ra = false /\ IS_SPILL_SP op rd ra = false.
Proof.
  unfold IS_SPILL_REG, IS_UPDATE_SP, IS_SPILL_SP.
  destruct op; simpl; try discriminate; destruct (rd =? REG_SP);
    simpl; try discriminate; auto.
Qed.

(** The stack adjustment met with no frame size yet. *)
Lemma scan_body_first_update_sp a st :
  let d := microblaze_decode_insn (microblaze_fetch_instruction a) in
  IS_UPDATE_SP (d_op d) (d_rd d) (d_ra d) = true ->
  framesize (st_cache st) = 0 ->
  scan_body a st
  = Continue (ScanState
                (set_frameless_p 0
                   (set_framesize (int_neg (d_imm d)) (st_cache st)))
                false false (prologue_end_addr st)).
Proof.
  intros d Hupd Hsize. unfold scan_body, scan_insn. fold d.
  by rewrite Hupd, Hsize.
Qed.

(** The stack adjustment met with a frame size: the [break]. *)
Lemma scan_body_second_update_sp a st :
  let d := microblaze_decode_insn (microblaze_fetch_instruction a) in
  IS_UPDATE_SP (d_op d) (d_rd d) (d_ra d) = true ->
  framesize (st_cache st) <> 0 ->
  scan_body a st = Break st.
Proof.
  intros d Hupd Hsize. unfold scan_body, scan_insn. fold d.
  rewrite Hupd. destruct (Z.eqb_spec (framesize (st_cache st)) 0);
    [contradiction|reflexivity].
Qed.

(** The register spill relative to the stack pointer. *)
Lemma scan_body_spill_reg a st :
  let d := microblaze_decode_insn (microblaze_fetch_instruction a) in
  IS_SPILL_REG (d_op d) (d_rd d) (d_ra d) = true ->
  scan_body a st
  = continue_prologue false
      (set_register_offset (d_rd d)
         (int_sub (d_imm d) (framesize (st_cache st))) (st_cache st)) st.
Proof.
  intros d Hspill. unfold scan_body, scan_insn. fold d.
  destruct (spill_reg_not_update_sp _ _ _ Hspill) as [-> ->].
  by rewrite Hspill.
Qed.

(** C4.  A function that starts with a stack adjustment by -n and goes on
    with the spill of register r at n-k from the stack pointer, scanned
    from its entry with a bound that covers these two instructions and no
    third one: the scanner returns, and the summary has frame size n, the
    frameless flag cleared, and offset -k for register r.  n and -k are
    values of an [int]; r is a register of the offset array. *)
Theorem stack_adjust_then_spill pc current_pc cache (n k r : Z) :
  let func_addr := scan_start pc in
  let d1 := microblaze_decode_insn (microblaze_fetch_instruction func_addr) in
  let d2 := microblaze_decode_insn
              (microblaze_fetch_instruction (func_addr + 4)%N) in
  (func_addr <= pc)%N ->
  IS_UPDATE_SP (d_op d1) (d_rd d1) (d_ra d1) = true ->
  d_imm d1 = - n ->
  IS_SPILL_REG (d_op d2) (d_rd d2) (d_ra d2) = true ->
  d_rd d2 = r ->
  d_imm d2 = n - k ->
  (func_addr + 4 < scan_stop pc current_pc <= func_addr + 8)%N ->
  no_wrap (scan_stop pc current_pc) ->
  - 2 ^ 31 <= n < 2 ^ 31 ->
  - 2 ^ 31 <= - k < 2 ^ 31 ->
  0 <= r < Z.of_nat MICROBLAZE_NUM_REGS ->
  length (register_offsets cache) = MICROBLAZE_NUM_REGS ->
  exists end_addr summary,
    scan_returns pc current_pc cache (end_addr, summary)
    /\ framesize summary = n
    /\ frameless_p summary = 0
    /\ register_offsets summary !! Z.to_nat r = Some (- k).
Proof.
  intros func_addr d1 d2 Hentry Hupd Himm1 Hspill Hrd Himm2 Hstop Hwrap
    HN Hk Hr Hlen.
  assert (Hscan_entry : scan_entry pc = func_addr).
  { unfold scan_entry, func_addr, scan_start in *.
    destruct (find_pc_partial_function pc) as [[found fa] fe].
    destruct (N.ltb_spec fa pc); [reflexivity|lia]. }
  pose proof (scan_stop_le pc current_pc) as Hcur.
  set (stop := scan_stop pc current_pc) in *.
  set (st0 := scan_initial_state cache).
  pose proof (scan_body_first_update_sp func_addr st0 Hupd eq_refl) as Hstep1.
  fold d1 in Hstep1. rewrite Himm1 in Hstep1.
  unfold int_neg in Hstep1. rewrite Z.opp_involutive in Hstep1.
  rewrite (int_wrap_small n HN) in Hstep1.
  set (st1 := ScanState _ _ _ _) in Hstep1.
  pose proof (scan_body_spill_reg (func_addr + 4)%N st1 Hspill) as Hstep2.
  fold d2 in Hstep2. rewrite Hrd, Himm2 in Hstep2. simpl in Hstep2.
  unfold int_sub in Hstep2.
  replace (n - k - n) with (- k) in Hstep2 by lia.
  rewrite (int_wrap_small (- k) Hk) in Hstep2.
  unfold continue_prologue in Hstep2.
  set (st2 := ScanState _ _ _ _) in Hstep2.
  exists (finish_scan st2), (st_cache st2). split.
  - assert (Hlt1 : (func_addr < stop)%N) by lia.
    assert (Hlt2 : (func_addr + 4 < stop)%N) by lia.
    exists 2%nat. rewrite analyze_prologue_eq, Hscan_entry.
    destruct (N.ltb_spec current_pc func_addr); [lia|].
    unfold entry_is_return. rewrite Hscan_entry. fold d1.
    rewrite (update_sp_not_return _ _ _ Hupd).
    fold stop st0 func_addr.
    rewrite (scan_loop_continue _ _ _ _ _ Hlt1 Hstep1).
    rewrite (core_addr_add_no_wrap func_addr stop Hwrap Hlt1).
    rewrite (scan_loop_continue _ _ _ _ _ Hlt2 Hstep2).
    rewrite (core_addr_add_no_wrap (func_addr + 4) stop Hwrap Hlt2).
    rewrite scan_loop_done by lia. reflexivity.
  - subst st2 st1. simpl. repeat split.
    destruct (Z.leb_spec 0 r); [|lia].
    apply list_lookup_insert_eq. rewrite Hlen. lia.
Qed.

End Steps.

Lemma stack_adjust_then_spill_witness :
  let T := sample_target 0x1000 [enc_addik_sp (-24); enc_swi_sp 15 20]
             0x1000 0x1008 0 in
  exists end_addr summary,
    @scan_returns T 0x1000 0xffffffff fresh_cache (end_addr, summary)
    /\ framesize summary = 24
    /\ frameless_p summary = 0
    /\ register_offsets summary !! Z.to_nat 15 = Some (- 4).
Proof.
  intros T.
  apply (@stack_adjust_then_spill T 0x1000 0xffffffff fresh_cache 24 4 15);
    try reflexivity; vm_compute; intuition discriminate.
Defined.

(** ** A second stack adjustment *)

Section SecondAdjustment.
Context `{Target}.

(** Once the frame size is set (not zero), no pass through the body
    changes it. *)
Lemma scan_body_keeps_framesize a st :
  framesize (st_cache st) <> 0 ->
  framesize (st_cache (step_state (scan_body a st)))
  = framesize (st_cache st).
Proof.
  intros Hset. body_cases; simpl; try reflexivity.
  exfalso. apply Hset. by apply Z.eqb_eq, negb_false_iff.
Qed.

Lemma scan_loop_keeps_framesize fuel stop a st e a' st' :
  framesize (st_cache st) <> 0 ->
  scan_loop fuel stop a st = Some (e, a', st') ->
  framesize (st_cache st') = framesize (st_cache st).
Proof.
  intros Hset Hrun.
  eapply (scan_loop_invariant
            (fun s => framesize (st_cache s) = framesize (st_cache st)));
    [|reflexivity|exact Hrun].
  intros a0 s _ Hs. rewrite <- Hs. apply scan_body_keeps_framesize.
  by rewrite Hs.
Qed.

(** C3 (amended).  A scan starts at [a0] and comes, with no frame size set
    so far, to a stack adjustment at [a1] that sets it to a value other
    than 0 (0 is the mark of "not set", which the test before the [break]
    reads).  It goes on and reaches a second stack
    adjustment at [a2].  Then the scan, whatever its bound beyond [a2],
    stops there by the [break], in the very state it reached [a2] with:
    the second adjustment changes nothing, and the frame size is the one
    the first adjustment gave. *)
Theorem second_stack_adjust_stops_scan fuel0 fuel stop a0 a1 a2 st0 st1 st2 :
  let d1 := microblaze_decode_insn (microblaze_fetch_instruction a1) in
  let d2 := microblaze_decode_insn (microblaze_fetch_instruction a2) in
  scan_loop fuel0 a1 a0 st0 = Some (ran_to_stop, a1, st1) ->
  framesize (st_cache st1) = 0 ->
  IS_UPDATE_SP (d_op d1) (d_rd d1) (d_ra d1) = true ->
  int_neg (d_imm d1) <> 0 ->
  scan_loop fuel a2 a1 st1 = Some (ran_to_stop, a2, st2) ->
  IS_UPDATE_SP (d_op d2) (d_rd d2) (d_ra d2) = true ->
  (a1 < a2 < stop)%N ->
  scan_loop (fuel0 + (fuel + 1)) stop a0 st0 = Some (left_by_break, a2, st2)
  /\ framesize (st_cache st2) = int_neg (d_imm d1).
Proof.
  intros d1 d2 Hreach1 Hunset Hupd1 Hsize Hreach2 Hupd2 Horder.
  assert (Hframe : framesize (st_cache st2) = int_neg (d_imm d1)).
  { destruct fuel as [|fuel]; simpl in Hreach2;
      destruct (N.ltb_spec a1 a2); try lia; try discriminate.
    rewrite (scan_body_first_update_sp a1 st1 Hupd1 Hunset) in Hreach2.
    apply scan_loop_keeps_framesize in Hreach2; [|exact Hsize].
    exact Hreach2. }
  split; [|exact Hframe].
  apply (scan_loop_prefix _ _ _ _ _ _ Hreach1); [lia|].
  apply (scan_loop_prefix _ _ _ _ _ _ Hreach2); [lia|].
  apply scan_loop_break; [lia|].
  apply scan_body_second_update_sp; [exact Hupd2|].
  rewrite Hframe. exact Hsize.
Qed.

End SecondAdjustment.

Lemma second_stack_adjust_stops_scan_witness :
  let T := sample_target 0x1000
             [enc_nop; enc_addik_sp (-24); enc_swi_sp 15 0;
              enc_addik_sp (-16); enc_swi_sp 19 4; enc_rtsd]
             0x1000 0x1018 0 in
  let st0 := scan_initial_state fresh_cache in
  exists st2,
    @scan_loop T 4 0x1018 0x1000 st0 = Some (left_by_break, 0x100c%N, st2)
    /\ framesize (st_cache st2) = 24
    /\ register_offsets (st_cache st2) !! 19%nat = Some (-1).
Proof.
  intros T st0.
  destruct (@second_stack_adjust_stops_scan T 1 2 0x1018 0x1000 0x1004 0x100c
              st0
              (ScanState (init_frame_info fresh_cache) false true 0x1000)
              (ScanState
                 (set_register_offset 15 (-24)
                    (set_frameless_p 0
                       (set_framesize 24 (init_frame_info fresh_cache))))
                 false false 0x1000))
    as [Hrun Hsize]; try reflexivity.
  - vm_compute. discriminate.
  - vm_compute. intuition discriminate.
  - eexists. split; [exact Hrun|]. split; [exact Hsize|reflexivity].
Defined.

(** C3, counterexample.  A stack adjustment by 0 sets the frame size to 0
    and clears the frameless flag; the frame size still reads as "not
    set", so the different stack adjustment that follows is not a reason to
    stop: it is processed, and the frame size becomes 8, not the 0 that the
    first adjustment gave. *)
Lemma second_stack_adjust_after_zero_counterexample :
  let T := sample_target 0x1000
             [enc_addik_sp 0; enc_addik_sp (-8); enc_rtsd]
             0x1000 0x100c 0 in
  let st0 := scan_initial_state fresh_cache in
  let st1 := ScanState
               (set_frameless_p 0
                  (set_framesize 0 (init_frame_info fresh_cache)))
               false false 0 in
  let st2 := ScanState
               (set_frameless_p 0
                  (set_framesize 8 (init_frame_info fresh_cache)))
               false false 0 in
  @scan_body T 0x1000 st0 = Continue st1
  /\ @scan_body T 0x1004 st1 = Continue st2
  /\ framesize (st_cache st1) = 0
  /\ framesize (st_cache st2) = 8
  /\ @microblaze_analyze_prologue T 3 0x1000 0xffffffff fresh_cache
     = Some (0x1008%N, st_cache st2).
Proof.
  intros T st0 st1 st2. repeat split; vm_compute; reflexivity.
Qed.

(** ** The tentative end of the prologue *)

Section Tentative.
Context `{Target}.

(** An invariant that may mention the address the loop stands at.  With a
    bound that leaves room for one step, [addr] advances by four without
    wrapping; after a [break] the property holds for the address after the
    instruction that broke. *)
Lemma scan_loop_invariant_at (P : CORE_ADDR -> scan_state -> Prop) stop :
  no_wrap stop ->
  (forall a st, (a < stop)%N -> P a st ->
     P (a + 4)%N (step_state (scan_body a st))) ->
  forall fuel a st e a' st',
    P a st -> scan_loop fuel stop a st = Some (e, a', st') ->
    P (match e with ran_to_stop => a' | left_by_break => a' + 4 end)%N st'.
Proof.
  intros Hstop Hbody.
  induction fuel as [|fuel IH]; intros a st e a' st' HP; simpl;
    destruct (N.ltb_spec a stop) as [Ha|Ha]; try discriminate.
  - intros [= <- <- <-]. exact HP.
  - pose proof (Hbody a st Ha HP) as HP'.
    destruct (scan_body a st) as [st1|st1].
    + rewrite (core_addr_add_no_wrap a stop Hstop Ha). apply IH. exact HP'.
    + intros [= <- <- <-]. exact HP'.
  - intros [= <- <- <-]. exact HP.
Qed.

Lemma aligned_next (start a : CORE_ADDR) :
  (start <= a)%N -> ((a - start) mod 4 = 0)%N ->
  ((a + 4 - start) mod 4 = 0)%N.
Proof.
  intros Hle Hmod. replace (a + 4 - start)%N with (a - start + 1 * 4)%N by lia.
  by rewrite N.Div0.mod_add.
Qed.

Lemma scan_body_tentative start stop a st :
  (a < stop)%N ->
  tentative_recorded start stop a st ->
  tentative_recorded start stop (a + 4) (step_state (scan_body a st)).
Proof.
  intros Ha (Hle & Hmod & Hrec).
  split; [lia|]. split; [by apply aligned_next|].
  body_cases; simpl; intros Hset; try discriminate Hset.
  all: try (destruct (framesize (st_cache st) =? 0); [discriminate Hset|]).
  all: try (destruct (Hrec Hset) as (? & ? & ? & ?);
            repeat split; (lia || assumption)).
  all: destruct (non_stack_instruction_found st) eqn:Hnsf;
    [destruct (Hrec eq_refl) as (? & ? & ? & ?);
     repeat split; (lia || assumption)|].
  all: repeat split; try lia; try assumption.
  all: exists (fp_regnum (st_cache st)); unfold non_stack_insn;
    repeat match goal with
           | Hc : _ = false |- _ => rewrite Hc; clear Hc
           end; reflexivity.
Qed.

(** C2 (amended).  When the loop of a scan runs to its bound with no
    [break] and the flag [non_stack_instruction_found] is set at that
    point, the scanner returns the recorded tentative address (moved back
    by one instruction if the hidden-pointer flag is set too), not the
    address the loop ended at.  The recorded address is the address of an
    instruction of the scanned range, a whole number of instructions after
    the start, which none of the prologue patterns matched; it is below
    the bound, hence before the address the loop ended at. *)
Theorem scan_to_limit_returns_tentative pc current_pc cache fuel a_end st :
  let start := scan_start pc in
  let stop := scan_stop pc current_pc in
  let tentative := prologue_end_addr st in
  (scan_entry pc <= current_pc)%N ->
  entry_is_return pc = false ->
  no_wrap stop ->
  scan_loop fuel stop start (scan_initial_state cache)
  = Some (ran_to_stop, a_end, st) ->
  non_stack_instruction_found st = true ->
  microblaze_analyze_prologue fuel pc current_pc cache
  = Some (if save_hidden_pointer_found st
          then core_addr_sub tentative INST_WORD_SIZE else tentative,
          st_cache st)
  /\ (start <= tentative < stop)%N
  /\ (stop <= a_end)%N
  /\ ((tentative - start) mod 4 = 0)%N
  /\ exists fp,
       non_stack_insn fp
         (microblaze_decode_insn (microblaze_fetch_instruction tentative))
       = true.
Proof.
  intros start stop tentative Hguard Hret Hwrap Hloop Hnsf.
  split.
  - rewrite analyze_prologue_eq.
    destruct (N.ltb_spec current_pc (scan_entry pc)); [lia|].
    rewrite Hret. fold start stop. rewrite Hloop. reflexivity.
  - pose proof (scan_loop_exit _ _ _ _ _ _ _ Hloop) as Hexit. simpl in Hexit.
    assert (Hinit : tentative_recorded start stop start
                      (scan_initial_state cache)).
    { unfold tentative_recorded. rewrite N.sub_diag.
      split; [lia|]. split; [reflexivity|]. discriminate. }
    pose proof (scan_loop_invariant_at (tentative_recorded start stop) stop
                  Hwrap (scan_body_tentative start stop)
                  _ _ _ _ _ _ Hinit Hloop) as (_ & _ & Hrec).
    destruct (Hrec Hnsf) as (Hrange & Hbelow & Haligned & Hother).
    fold tentative in Hrange, Hbelow, Haligned, Hother.
    repeat split; (lia || assumption).
Qed.

End Tentative.

(** C2, counterexample.  Two nops scanned to the end of the function: the
    loop runs to 0x1008 with no [break], and the scanner returns 0x1000,
    the address of the first nop, not 0x1008. *)
Lemma scan_to_limit_counterexample :
  let T := sample_target 0x1000 [enc_nop; enc_nop] 0x1000 0x1008 0 in
  exists st,
    @scan_loop T 2 (@scan_stop T 0x1000 0xffffffff) (@scan_start T 0x1000)
      (scan_initial_state fresh_cache)
    = Some (ran_to_stop, 0x1008%N, st)
    /\ @scan_returns T 0x1000 0xffffffff fresh_cache (0x1000%N, st_cache st)
    /\ ~ (exists cache',
            @scan_returns T 0x1000 0xffffffff fresh_cache (0x1008%N, cache')).
Proof.
  intros T.
  exists (ScanState (init_frame_info fresh_cache) false true 0x1000).
  split; [vm_compute; reflexivity|].
  assert (Hrun : @scan_returns T 0x1000 0xffffffff fresh_cache
                   (0x1000%N,
                    st_cache (ScanState (init_frame_info fresh_cache)
                                false true 0x1000)))
    by (exists 2%nat; vm_compute; reflexivity).
  split; [exact Hrun|].
  intros [cache' Hrun'].
  pose proof (@scan_returns_unique T _ _ _ _ _ Hrun Hrun') as Heq.
  discriminate Heq.
Qed.

Lemma scan_to_limit_returns_tentative_witness :
  let T := sample_target 0x1000
             [enc_addik_sp (-8); enc_nop; enc_swi_sp 15 0; enc_nop]
             0x1000 0x1010 0 in
  @microblaze_analyze_prologue T 4 0x1000 0xffffffff fresh_cache
  = Some (0x1004%N,
          set_register_offset 15 (-8)
            (set_frameless_p 0 (set_framesize 8 (init_frame_info fresh_cache))))
  /\ (0x1000 <= 0x1004 < 0x1010)%N.
Proof.
  intros T.
  destruct (@scan_to_limit_returns_tentative T 0x1000 0xffffffff fresh_cache
              4 0x1010
              (ScanState
                 (set_register_offset 15 (-8)
                    (set_frameless_p 0
                       (set_framesize 8 (init_frame_info fresh_cache))))
                 false true 0x1004))
    as (Hrun & Hrange & _); try reflexivity.
  - vm_compute. discriminate.
  - vm_compute. discriminate.
  - split; [exact Hrun|exact Hrange].
Defined.

(** ** The hidden-pointer save *)

(** With the hidden-pointer flag set, the address returned is the recorded
    one less one instruction, computed in 64 bits. *)
Lemma finish_scan_retracts st :
  save_hidden_pointer_found st = true ->
  finish_scan st = core_addr_sub (prologue_end_addr st) INST_WORD_SIZE.
Proof. intros Hshp. unfold finish_scan. by rewrite Hshp. Qed.

Lemma core_addr_sub_no_wrap (a : CORE_ADDR) :
  (INST_WORD_SIZE <= a < CORE_ADDR_MODULUS)%N ->
  core_addr_sub a INST_WORD_SIZE = (a - 4)%N.
Proof.
  unfold core_addr_sub, INST_WORD_SIZE, CORE_ADDR_MODULUS. intros Ha.
  rewrite Z.mod_small by lia. lia.
Qed.

(** A scan that meets nothing but prologue instructions up to its bound
    never records an address: the scanner returns the 0 its local started
    with. *)
Lemma scan_of_prologue_only_returns_zero :
  let T := sample_target 0x1000 [enc_addik_sp (-8); enc_swi_sp 15 0]
             0x1000 0x1008 0 in
  @scan_loop T 2 (@scan_stop T 0x1000 0xffffffff) (@scan_start T 0x1000)
    (scan_initial_state fresh_cache)
  = Some (ran_to_stop, 0x1008%N,
          ScanState
            (set_register_offset 15 (-8)
               (set_frameless_p 0
                  (set_framesize 8 (init_frame_info fresh_cache))))
            false false 0)
  /\ exists cache',
       @microblaze_analyze_prologue T 2 0x1000 0xffffffff fresh_cache
       = Some (0%N, cache').
Proof.
  intros T. split; [vm_compute; reflexivity|].
  exists (set_register_offset 15 (-8)
            (set_frameless_p 0
               (set_framesize 8 (init_frame_info fresh_cache)))).
  vm_compute. reflexivity.
Qed.

(** The case the retraction is written for: the save of the hidden pointer
    is followed by the first instruction of the body, whose address is
    recorded; the scanner returns the address of the save. *)
Example hidden_pointer_save_before_body :
  @microblaze_analyze_prologue
    (sample_target 0x1000
       [enc_addik_sp (-8); enc_add_r5 3; enc_nop; enc_rtsd]
       0x1000 0x1010 0)
    4 0x1000 0xffffffff fresh_cache
  = Some (0x1004%N,
          set_frameless_p 0 (set_framesize 8 (init_frame_info fresh_cache))).
Proof. vm_compute. reflexivity. Qed.

(** C7.  The claim: a save of the hidden pointer that is the last
    instruction before the bound of the scan gives a prologue end one
    instruction before its successor, that is, its own address.  On the
    function [addik r1, r1, -8; add r3, r5, r0] at 0x1000, scanned to its
    end 0x1008, the loop runs to the bound with the hidden-pointer flag set
    and no address recorded; the retraction takes 4 from the 0 the local
    started with, and the scanner, and [microblaze_skip_prologue] after it,
    return 0xfffffffffffffffc where the claim has 0x1004. *)
Theorem trailing_hidden_pointer_save_returns_wrapped_address :
  let T := sample_target 0x1000 [enc_addik_sp (-8); enc_add_r5 3]
             0x1000 0x1008 0 in
  let st := ScanState
              (set_frameless_p 0
                 (set_framesize 8 (init_frame_info fresh_cache)))
              true false 0 in
  @scan_body T 0x1004
    (ScanState (set_frameless_p 0
                  (set_framesize 8 (init_frame_info fresh_cache)))
               false false 0)
  = Continue st
  /\ @scan_loop T 2 (@scan_stop T 0x1000 0xffffffff) (@scan_start T 0x1000)
       (scan_initial_state fresh_cache)
     = Some (ran_to_stop, 0x1008%N, st)
  /\ save_hidden_pointer_found st = true
  /\ prologue_end_addr st = 0%N
  /\ @microblaze_analyze_prologue T 2 0x1000 0xffffffff fresh_cache
     = Some (0xfffffffffffffffc%N, st_cache st)
  /\ @microblaze_skip_prologue T 2 0x1000 stale_cache
     = Some 0xfffffffffffffffc%N
  /\ 0xfffffffffffffffc%N <> 0x1004%N.
Proof.
  intros T st. repeat split; try (vm_compute; reflexivity).
  discriminate.
Qed.

(** * Further properties of the scanner *)

Section ScannerExtras.
Context `{Target}.

Lemma line_table_pc_ge start_pc : (start_pc <= line_table_pc start_pc)%N.
Proof.
  unfold line_table_pc.
  destruct (find_pc_partial_function start_pc) as [[found func_start] func_end].
  destruct found; [|lia].
  destruct (N.ltb_spec (find_pc_line func_start) func_end); simpl; [|lia].
  destruct (N.leb_spec start_pc (find_pc_line func_start)); lia.
Qed.

(** X1.  [microblaze_skip_prologue] returns, and never an address before
    the start address it was given: the line table can only move the start
    forward (it is taken when [start_pc <= sal.end]), and the scanner's
    result is taken only when it is later still. *)
Theorem skip_prologue_never_goes_back start_pc cache :
  (exists r, skip_prologue_returns start_pc cache r)
  /\ forall r, skip_prologue_returns start_pc cache r -> (start_pc <= r)%N.
Proof.
  split.
  - destruct (analyze_prologue_returns (scan_start start_pc) 0xffffffff cache)
      as [[ostart_pc cache'] [fuel Hscan]].
    { eapply no_wrap_le; [apply scan_stop_le|apply no_wrap_32]. }
    eexists. exists fuel. rewrite skip_prologue_eq, Hscan. reflexivity.
  - intros r [fuel Hskip]. rewrite skip_prologue_eq in Hskip.
    destruct (microblaze_analyze_prologue fuel _ _ _) as [[o c]|];
      [|discriminate].
    injection Hskip as <-. rewrite later_address.
    pose proof (line_table_pc_ge start_pc). lia.
Qed.

(** The loop body reads of the state only what [scan_view] shows. *)
Lemma scan_body_view a st1 st2 :
  scan_view st1 = scan_view st2 ->
  step_view (scan_body a st1) = step_view (scan_body a st2).
Proof.
  destruct st1 as [[b1 p1 fl1 fs1 fp1 ro1] shp1 nsf1 pea1].
  destruct st2 as [[b2 p2 fl2 fs2 fp2 ro2] shp2 nsf2 pea2].
  unfold scan_view.
  cbn [st_cache framesize fp_regnum save_hidden_pointer_found
       non_stack_instruction_found prologue_end_addr].
  intros [= -> -> -> -> ->].
  unfold scan_body, scan_insn, continue_prologue; cbv zeta.
  cbn [st_cache framesize fp_regnum save_hidden_pointer_found
       non_stack_instruction_found prologue_end_addr].
  repeat lazymatch goal with
         | |- step_view (if ?b then _ else _) = _ => destruct b
         end;
    reflexivity.
Qed.

Lemma scan_loop_view fuel stop a st1 st2 :
  scan_view st1 = scan_view st2 ->
  match scan_loop fuel stop a st1, scan_loop fuel stop a st2 with
  | Some (e1, a1, s1), Some (e2, a2, s2) =>
      e1 = e2 /\ a1 = a2 /\ scan_view s1 = scan_view s2
  | None, None => True
  | _, _ => False
  end.
Proof.
  revert a st1 st2. induction fuel as [|fuel IH]; intros a st1 st2 Hview;
    simpl; destruct (a <? stop)%N; auto.
  pose proof (scan_body_view a st1 st2 Hview) as Hstep.
  unfold step_view in Hstep. apply pair_equal_spec in Hstep as [Hbreak Hstate].
  destruct (scan_body a st1) as [s1|s1], (scan_body a st2) as [s2|s2];
    try discriminate Hbreak; cbn [step_state] in Hstate.
  - by apply IH.
  - auto.
Qed.

Lemma finish_scan_view st1 st2 :
  scan_view st1 = scan_view st2 -> finish_scan st1 = finish_scan st2.
Proof.
  unfold scan_view, finish_scan. intros [= _ _ -> _ ->]. reflexivity.
Qed.

Lemma analyze_prologue_address_ignores_cache fuel pc current_pc cache1 cache2 :
  fst <$> microblaze_analyze_prologue fuel pc current_pc cache1
  = fst <$> microblaze_analyze_prologue fuel pc current_pc cache2.
Proof.
  rewrite !analyze_prologue_eq.
  destruct (current_pc <? scan_entry pc)%N; [reflexivity|].
  destruct (entry_is_return pc); [reflexivity|].
  pose proof (scan_loop_view fuel (scan_stop pc current_pc) (scan_start pc)
                (scan_initial_state cache1) (scan_initial_state cache2)
                eq_refl) as Hloop.
  destruct (scan_loop fuel _ _ (scan_initial_state cache1))
    as [[[e1 a1] s1]|],
    (scan_loop fuel _ _ (scan_initial_state cache2)) as [[[e2 a2] s2]|];
    try contradiction; [|reflexivity].
  destruct Hloop as (_ & _ & Hview). simpl.
  by rewrite (finish_scan_view _ _ Hview).
Qed.

(** X2.  The address the scanner returns does not depend on what the cache
    held before the call, and so the result of [microblaze_skip_prologue]
    does not depend on the contents of its local [cache], which it never
    initialises. *)
Theorem skip_prologue_ignores_cache_contents fuel pc current_pc start_pc
    cache1 cache2 :
  fst <$> microblaze_analyze_prologue fuel pc current_pc cache1
  = fst <$> microblaze_analyze_prologue fuel pc current_pc cache2
  /\ microblaze_skip_prologue fuel start_pc cache1
     = microblaze_skip_prologue fuel start_pc cache2.
Proof.
  split; [apply analyze_prologue_address_ignores_cache|].
  rewrite !skip_prologue_eq.
  pose proof (analyze_prologue_address_ignores_cache fuel
                (scan_start start_pc) 0xffffffff cache1 cache2) as Haddr.
  destruct (microblaze_analyze_prologue fuel _ _ cache1) as [[o1 c1]|],
    (microblaze_analyze_prologue fuel _ _ cache2) as [[o2 c2]|];
    simpl in Haddr; try discriminate; [|reflexivity].
  by injection Haddr as ->.
Qed.

End ScannerExtras.

Section ScannerReads.
Context {T : Target}.

Lemma scan_loop_with_memory mem stop :
  (forall a, (a < stop)%N -> mem a = @target_read_code T a) ->
  forall fuel a st,
    @scan_loop (with_memory T mem) fuel stop a st
    = @scan_loop T fuel stop a st.
Proof.
  intros Hmem. induction fuel as [|fuel IH]; intros a st; simpl;
    destruct (N.ltb_spec a stop) as [Ha|Ha]; try reflexivity.
  assert (Hbody : @scan_body (with_memory T mem) a st = @scan_body T a st).
  { unfold scan_body, microblaze_fetch_instruction. simpl.
    rewrite (Hmem a Ha). reflexivity. }
  rewrite Hbody. clear Hbody.
  destruct (@scan_body T a st); [apply IH|reflexivity].
Qed.

(** X3.  The scanner reads target memory only at the entry it decodes
    first and at addresses below the bound of its loop: on a target whose
    memory agrees with the given one there, and is arbitrary elsewhere, it
    gives the same result. *)
Theorem scanner_reads_only_below_stop mem fuel pc current_pc cache :
  (forall a, (a < @scan_stop T pc current_pc)%N \/ a = @scan_entry T pc ->
             mem a = @target_read_code T a) ->
  @microblaze_analyze_prologue (with_memory T mem) fuel pc current_pc cache
  = @microblaze_analyze_prologue T fuel pc current_pc cache.
Proof.
  intros Hmem. rewrite (@analyze_prologue_eq (with_memory T mem)).
  rewrite (@analyze_prologue_eq T).
  change (@scan_entry (with_memory T mem) pc) with (@scan_entry T pc).
  change (@scan_stop (with_memory T mem) pc current_pc)
    with (@scan_stop T pc current_pc).
  change (@scan_start (with_memory T mem) pc) with (@scan_start T pc).
  destruct (current_pc <? @scan_entry T pc)%N; [reflexivity|].
  assert (Hret : @entry_is_return (with_memory T mem) pc
                 = @entry_is_return T pc).
  { unfold entry_is_return, microblaze_fetch_instruction. simpl.
    change (@scan_entry (with_memory T mem) pc) with (@scan_entry T pc).
    rewrite (Hmem (@scan_entry T pc)) by (right; reflexivity). reflexivity. }
  rewrite Hret. clear Hret.
  destruct (@entry_is_return T pc); [reflexivity|].
  rewrite scan_loop_with_memory; [reflexivity|].
  intros a Ha. apply Hmem. left. exact Ha.
Qed.

End ScannerReads.

Lemma scanner_reads_only_below_stop_witness :
  let T := sample_target 0x1000
             [enc_addik_sp (-8); enc_swi_sp 15 0; enc_nop; enc_rtsd]
             0x1000 0x1010 0 in
  let mem := sample_read_code 0x1000
               [enc_addik_sp (-8); enc_swi_sp 15 0; enc_rtsd; enc_rtsd] in
  @microblaze_analyze_prologue (with_memory T mem) 4 0x1000 0x1008 fresh_cache
  = @microblaze_analyze_prologue T 4 0x1000 0x1008 fresh_cache.
Proof.
  intros T mem. apply (@scanner_reads_only_below_stop T mem).
  intros a Ha.
  assert (Hlt : (a < 0x1008)%N).
  { destruct Ha as [Ha| ->]; [exact Ha|reflexivity]. }
  unfold mem. simpl. unfold sample_read_code.
  destruct ((0x1000 <=? a)%N && ((a - 0x1000) mod 4 =? 0)%N) eqn:Hin;
    [|reflexivity].
  apply andb_true_iff in Hin as [Hge Hmod]. apply N.leb_le in Hge.
  assert (Hidx : (N.to_nat ((a - 0x1000) / 4) < 2)%nat).
  { apply N.eqb_eq in Hmod.
    assert (((a - 0x1000) / 4 < 2)%N); [|lia].
    apply N.Div0.div_lt_upper_bound. lia. }
  destruct (N.to_nat ((a - 0x1000) / 4)) as [|[|n]]; [reflexivity..|lia].
Defined.

Section Provenance.
Context `{Target}.

Lemma scan_body_frame_size_source stop a st :
  (a < stop)%N ->
  frame_size_source stop (st_cache st) ->
  frame_size_source stop (st_cache (step_state (scan_body a st))).
Proof.
  intros Ha Hsrc. body_cases; simpl; try exact Hsrc.
  right. split; [reflexivity|]. exists a. split; [exact Ha|].
  split; [assumption|reflexivity].
Qed.

(** X4.  After a scan that passes the entry test, the summary is either
    frameless with frame size 0, or not frameless with the frame size read
    off a stack adjustment that lies below the bound of the scan: the
    negated immediate of that instruction.  A function with no stack
    adjustment below the bound is reported as frameless. *)
Theorem frame_size_comes_from_stack_adjust pc current_pc cache r :
  scan_returns pc current_pc cache r ->
  (scan_entry pc <= current_pc)%N ->
  frame_size_source (scan_stop pc current_pc) (snd r).
Proof.
  intros [fuel Hrun] Hguard. rewrite analyze_prologue_eq in Hrun.
  destruct (N.ltb_spec current_pc (scan_entry pc)); [lia|].
  destruct (entry_is_return pc).
  { injection Hrun as <-. left. split; reflexivity. }
  destruct (scan_loop fuel _ _ _) as [[[e a] st]|] eqn:Hloop; [|discriminate].
  injection Hrun as <-. simpl.
  eapply (scan_loop_invariant
            (fun s => frame_size_source (scan_stop pc current_pc)
                        (st_cache s))); [| |exact Hloop].
  - intros a0 s Ha0. by apply scan_body_frame_size_source.
  - left. split; reflexivity.
Qed.

Lemma scan_body_frame_pointer_source stop a st :
  (a < stop)%N ->
  frame_pointer_source stop (st_cache st) ->
  frame_pointer_source stop (st_cache (step_state (scan_body a st))).
Proof.
  intros Ha Hsrc. body_cases; simpl; try exact Hsrc.
  right. exists a. split; [exact Ha|]. split; [assumption|reflexivity].
Qed.

(** X5.  After a scan that passes the entry test, the frame pointer of the
    summary is the stack pointer, or the destination register of an
    instruction below the bound of the scan that copies the stack pointer
    ([add], [addk] or [addik] with r1 as first and r0 as second source). *)
Theorem frame_pointer_comes_from_setup pc current_pc cache r :
  scan_returns pc current_pc cache r ->
  (scan_entry pc <= current_pc)%N ->
  frame_pointer_source (scan_stop pc current_pc) (snd r).
Proof.
  intros [fuel Hrun] Hguard. rewrite analyze_prologue_eq in Hrun.
  destruct (N.ltb_spec current_pc (scan_entry pc)); [lia|].
  destruct (entry_is_return pc).
  { injection Hrun as <-. left. reflexivity. }
  destruct (scan_loop fuel _ _ _) as [[[e a] st]|] eqn:Hloop; [|discriminate].
  injection Hrun as <-. simpl.
  eapply (scan_loop_invariant
            (fun s => frame_pointer_source (scan_stop pc current_pc)
                        (st_cache s))); [| |exact Hloop].
  - intros a0 s Ha0. by apply scan_body_frame_pointer_source.
  - left. reflexivity.
Qed.

Lemma spill_patterns_are_stores op rd ra rb fp :
  IS_SPILL_SP op rd ra = true \/ IS_SPILL_REG op rd ra = true
  \/ IS_ALSO_SPILL_REG op rd ra rb = true
  \/ IS_SPILL_REG_FP op rd ra fp = true ->
  is_store op = true.
Proof.
  unfold IS_SPILL_SP, IS_SPILL_REG, IS_ALSO_SPILL_REG, IS_SPILL_REG_FP,
    is_store.
  destruct (op_is op swi || op_is op sw); [reflexivity|].
  simpl. intuition discriminate.
Qed.

Lemma set_register_offset_other rd v cache (n : nat) :
  rd <> Z.of_nat n ->
  register_offsets (set_register_offset rd v cache) !! n
  = register_offsets cache !! n.
Proof.
  intros Hne. unfold set_register_offset. simpl.
  destruct (Z.leb_spec 0 rd); [|reflexivity].
  apply list_lookup_insert_ne. lia.
Qed.

Lemma scan_body_other_offsets (n : nat) a st :
  (let d := microblaze_decode_insn (microblaze_fetch_instruction a) in
   is_store (d_op d) = true -> d_rd d <> Z.of_nat n) ->
  register_offsets (st_cache (step_state (scan_body a st))) !! n
  = register_offsets (st_cache st) !! n.
Proof.
  intros Hrd. cbv zeta in Hrd.
  pose (d := microblaze_decode_insn (microblaze_fetch_instruction a)).
  body_cases; simpl; try reflexivity;
    apply set_register_offset_other, Hrd;
    apply (spill_patterns_are_stores (d_op d) (d_rd d) (d_ra d) (d_rb d)
             (fp_regnum (st_cache st)));
    first [ left; assumption
          | right; left; assumption
          | right; right; left; assumption
          | right; right; right; assumption ].
Qed.

(** X6.  The scanner writes the saved-register offset of a register only
    for a store instruction that names it: if no store ([sw] or [swi])
    below the bound of the scan has register n as its source, the offset
    of n is after the call what it was before. *)
Theorem scan_keeps_offsets_of_unstored_registers (n : nat) pc current_pc
    cache r :
  scan_returns pc current_pc cache r ->
  (forall a, (a < scan_stop pc current_pc)%N ->
     let d := microblaze_decode_insn (microblaze_fetch_instruction a) in
     is_store (d_op d) = true -> d_rd d <> Z.of_nat n) ->
  register_offsets (snd r) !! n = register_offsets cache !! n.
Proof.
  intros [fuel Hrun] Hstores. rewrite analyze_prologue_eq in Hrun.
  destruct (current_pc <? scan_entry pc)%N.
  { by injection Hrun as <-. }
  destruct (entry_is_return pc).
  { by injection Hrun as <-. }
  destruct (scan_loop fuel _ _ _) as [[[e a] st]|] eqn:Hloop; [|discriminate].
  injection Hrun as <-. simpl.
  eapply (scan_loop_invariant
            (fun s => register_offsets (st_cache s) !! n
                      = register_offsets cache !! n)); [| |exact Hloop].
  - intros a0 s Ha0 Hs. rewrite <- Hs. apply scan_body_other_offsets.
    apply Hstores, Ha0.
  - reflexivity.
Qed.

Lemma scan_body_keeps_frame_fields a st :
  let cache := st_cache st in
  let cache' := st_cache (step_state (scan_body a st)) in
  base cache' = base cache /\ pc cache' = pc cache
  /\ length (register_offsets cache') = length (register_offsets cache).
Proof.
  cbv zeta. body_cases; simpl; repeat split; try reflexivity;
    destruct (0 <=? _); try reflexivity; apply length_insert.
Qed.

(** X7.  The scanner never assigns the base address or the pc of the
    cache, and the array of offsets keeps its size: after the call these
    are what they were before, whatever was scanned. *)
Theorem scan_never_sets_frame_base at_pc current_pc cache r :
  scan_returns at_pc current_pc cache r ->
  base (snd r) = base cache /\ pc (snd r) = pc cache
  /\ length (register_offsets (snd r)) = length (register_offsets cache).
Proof.
  intros [fuel Hrun]. rewrite analyze_prologue_eq in Hrun.
  destruct (current_pc <? scan_entry at_pc)%N.
  { by injection Hrun as <-. }
  destruct (entry_is_return at_pc).
  { by injection Hrun as <-. }
  destruct (scan_loop fuel _ _ _) as [[[e a] st]|] eqn:Hloop; [|discriminate].
  injection Hrun as <-. simpl.
  eapply (scan_loop_invariant
            (fun s => base (st_cache s) = base cache
                      /\ pc (st_cache s) = pc cache
                      /\ length (register_offsets (st_cache s))
                         = length (register_offsets cache)));
    [| |exact Hloop].
  - intros a0 s _ (Hb & Hp & Hl).
    destruct (scan_body_keeps_frame_fields a0 s) as (Hb' & Hp' & Hl').
    rewrite Hb', Hp', Hl'. auto.
  - auto.
Qed.

End Provenance.

Section ScanStops.
Context `{Target}.

Lemma control_flow_group c :
  negb (c =? 0x26) && negb (c =? 0x27) && negb (c =? 0x2d)
  && negb (c =? 0x2e) && negb (c =? 0x2f) = false
  <-> c = 0x26 \/ c = 0x27 \/ c = 0x2d \/ c = 0x2e \/ c = 0x2f.
Proof.
  destruct (Z.eqb_spec c 0x26), (Z.eqb_spec c 0x27), (Z.eqb_spec c 0x2d),
    (Z.eqb_spec c 0x2e), (Z.eqb_spec c 0x2f); simpl; split; intros Hc;
    try discriminate; try reflexivity; try lia; auto.
Qed.

(** X8.  What ends the loop by [break]: a stack adjustment met when the
    frame size is set, or an instruction that none of the prologue patterns
    matches and whose top six bits are 0x26, 0x27, 0x2d, 0x2e or 0x2f.
    Nothing else does; in particular the test for 0x2c (the [imm] prefix)
    after these five decides nothing, such an instruction goes on like
    every other that is not in the group. *)
Theorem scan_breaks_exactly_when insn a st :
  let d := microblaze_decode_insn insn in
  let c := ctrl_op_of insn in
  is_break (scan_insn insn a st) = true
  <-> (IS_UPDATE_SP (d_op d) (d_rd d) (d_ra d) = true
       /\ framesize (st_cache st) <> 0)
      \/ (non_stack_insn (fp_regnum (st_cache st)) d = true
          /\ (c = 0x26 \/ c = 0x27 \/ c = 0x2d \/ c = 0x2e \/ c = 0x2f)).
Proof.
  intros d c. unfold scan_insn, continue_prologue, non_stack_insn. fold d c.
  cbv zeta.
  destruct (IS_UPDATE_SP (d_op d) (d_rd d) (d_ra d)) eqn:Hupd.
  { cbn [negb andb].
    destruct (Z.eqb_spec (framesize (st_cache st)) 0) as [Hz|Hnz];
      cbn [negb is_break]; split; try discriminate; auto.
    intros [[_ Hne]|[Hf _]]; [contradiction|discriminate]. }
  cbn [negb andb].
  repeat match goal with
         | |- is_break (if ?b then _ else _) = true <-> _ =>
             destruct b eqn:?; cbn [negb andb is_break]
         end.
  all: split; [try discriminate|].
  all: try (intros [[Hf _]|[Hf Hc]]; try discriminate Hf;
            apply control_flow_group in Hc; try congruence;
            match goal with
            | Himm : (_ =? 0x2c) = true |- _ => apply Z.eqb_eq in Himm; lia
            end).
  intros _. right. split; [reflexivity|].
  by apply control_flow_group.
Qed.

(** X9.  A scan whose bound is not past the start of the function (stopped
    at the first instruction, say) decodes the entry and nothing else: the
    summary is the initial, frameless one, and the address returned is the
    entry for a return instruction and 0 otherwise. *)
Theorem scan_with_empty_range pc current_pc cache fuel :
  (scan_entry pc <= current_pc <= scan_start pc)%N ->
  microblaze_analyze_prologue fuel pc current_pc cache
  = Some (if entry_is_return pc then scan_entry pc else 0%N,
          init_frame_info cache).
Proof.
  intros [Hlo Hhi]. rewrite analyze_prologue_eq.
  destruct (N.ltb_spec current_pc (scan_entry pc)); [lia|].
  destruct (entry_is_return pc); [reflexivity|].
  rewrite scan_loop_done; [reflexivity|].
  pose proof (scan_stop_le pc current_pc). lia.
Qed.

End ScanStops.

(** * Further properties of the return-value functions *)

Lemma extract_of_register (r rest : list byte) (off n : nat) :
  length r = 4%nat -> (off + n <= 4)%nat ->
  bytes_from (write_at rest 0 r) off n = take n (drop off r).
Proof.
  intros Hr Hn. unfold bytes_from, write_at. simpl.
  rewrite drop_app_le by lia. rewrite take_app_le; [reflexivity|].
  rewrite length_drop. lia.
Qed.

(** X10.  The extraction of a 1-byte (2-byte) return value gives the last
    byte (the last two bytes) of r3 and nothing else: it depends neither on
    the other bytes of r3, nor on any other register, nor on what the local
    buffer held. *)
Theorem extract_small_value_reads_low_bytes (regcache : gmap Z (list byte))
    (buf r : list byte) :
  regcache !! MICROBLAZE_RETVAL_REGNUM = Some r ->
  length r = 4%nat ->
  microblaze_extract_return_value 1 regcache buf = Returned (drop 3 r)
  /\ microblaze_extract_return_value 2 regcache buf = Returned (drop 2 r).
Proof.
  intros Hr3 Hlen. unfold microblaze_extract_return_value, cooked_read.
  simpl. rewrite Hr3. unfold MICROBLAZE_REGISTER_SIZE.
  rewrite !extract_of_register by (simpl; lia).
  split; f_equal; apply take_ge; rewrite length_drop; lia.
Qed.

Lemma extract_small_value_reads_low_bytes_witness :
  microblaze_extract_return_value 1
    (<[3 := [x12; x34; x56; x78]]> ∅) (replicate 8 xff)
  = Returned [x78]
  /\ microblaze_extract_return_value 2
       (<[3 := [x12; x34; x56; x78]]> ∅) (replicate 8 xff)
     = Returned [x56; x78].
Proof.
  apply (extract_small_value_reads_low_bytes
           (<[3 := [x12; x34; x56; x78]]> ∅) (replicate 8 xff)
           [x12; x34; x56; x78]); reflexivity.
Defined.

(** What a store of [len <= 4] bytes leaves in r3. *)
Lemma store_small_register (len : Z) (valbuf : list byte) :
  0 <= len <= 4 -> length valbuf = Z.to_nat len ->
  take MICROBLAZE_REGISTER_SIZE
    (write_at (replicate 8 x00) (Z.to_nat (4 - len))
       (take (Z.to_nat len) valbuf))
  = replicate (Z.to_nat (4 - len)) x00 ++ valbuf.
Proof.
  intros Hlen Hval.
  assert (Hcases : len = 0 \/ len = 1 \/ len = 2 \/ len = 3 \/ len = 4) by lia.
  destruct Hcases as [-> | [-> | [-> | [-> | ->]]]]; simpl in Hval;
    repeat (destruct valbuf as [|? valbuf]; try discriminate Hval);
    reflexivity.
Qed.

Lemma store_small_value_result (len : Z) (regcache : gmap Z (list byte))
    (valbuf : list byte) :
  0 <= len <= 4 ->
  length valbuf = Z.to_nat len ->
  exists regcache',
    microblaze_store_return_value len regcache valbuf = Returned regcache'
    /\ regcache' !! MICROBLAZE_RETVAL_REGNUM
       = Some (replicate (Z.to_nat (4 - len)) x00 ++ valbuf)
    /\ forall regnum, regnum <> MICROBLAZE_RETVAL_REGNUM ->
         regcache' !! regnum = regcache !! regnum.
Proof.
  intros Hlen Hval. unfold microblaze_store_return_value.
  destruct (Z.ltb_spec 4 len); [lia|].
  eexists. split; [reflexivity|]. unfold cooked_write. split.
  - rewrite lookup_insert_eq. f_equal. by apply store_small_register.
  - intros regnum Hne. by rewrite lookup_insert_ne.
Qed.

(** X11.  A value of at most four bytes is stored right-justified in r3,
    the bytes before it cleared, and no other register is written: r4 and
    all the others hold what they held. *)
Theorem store_small_value_right_justified (len : Z)
    (regcache : gmap Z (list byte)) (valbuf : list byte) :
  0 <= len <= 4 ->
  length valbuf = Z.to_nat len ->
  exists regcache',
    microblaze_store_return_value len regcache valbuf = Returned regcache'
    /\ regcache' !! MICROBLAZE_RETVAL_REGNUM
       = Some (replicate (Z.to_nat (4 - len)) x00 ++ valbuf)
    /\ forall regnum, regnum <> MICROBLAZE_RETVAL_REGNUM ->
         regcache' !! regnum = regcache !! regnum.
Proof.
  intros Hlen Hval. unfold microblaze_store_return_value.
  destruct (Z.ltb_spec 4 len); [lia|].
  eexists. split; [reflexivity|]. unfold cooked_write. split.
  - rewrite lookup_insert_eq. f_equal. by apply store_small_register.
  - intros regnum Hne. by rewrite lookup_insert_ne.
Qed.

Lemma store_small_value_right_justified_witness :
  exists regcache',
    microblaze_store_return_value 2 (<[4 := [xaa; xbb; xcc; xdd]]> ∅)
      [x12; x34]
    = Returned regcache'
    /\ regcache' !! MICROBLAZE_RETVAL_REGNUM = Some [x00; x00; x12; x34]
    /\ forall regnum, regnum <> MICROBLAZE_RETVAL_REGNUM ->
         regcache' !! regnum
         = (<[4 := [xaa; xbb; xcc; xdd]]> ∅ : gmap Z (list byte)) !! regnum.
Proof.
  apply (store_small_value_right_justified 2
           (<[4 := [xaa; xbb; xcc; xdd]]> ∅) [x12; x34]);
    [lia|reflexivity].
Defined.

(** X12.  Round trip for the sizes 1, 2 and 4: a value stored as a return
    value and then extracted with the same size comes back byte for byte.
    The extraction of four bytes reads r4 as well, which therefore has to
    hold a value. *)
Theorem store_then_extract_small_value (len : Z)
    (regcache : gmap Z (list byte)) (valbuf buf r4 : list byte) :
  len = 1 \/ len = 2 \/ len = 4 ->
  length valbuf = Z.to_nat len ->
  regcache !! (MICROBLAZE_RETVAL_REGNUM + 1) = Some r4 ->
  exists regcache',
    microblaze_store_return_value len regcache valbuf = Returned regcache'
    /\ microblaze_extract_return_value len regcache' buf = Returned valbuf.
Proof.
  intros Hlen Hval Hr4.
  destruct (store_small_value_result len regcache valbuf)
    as (regcache' & Hstore & Hr3 & Hother); [lia|exact Hval|].
  exists regcache'. split; [exact Hstore|].
  assert (Hr4' : regcache' !! (MICROBLAZE_RETVAL_REGNUM + 1) = Some r4).
  { rewrite Hother; [exact Hr4|]. unfold MICROBLAZE_RETVAL_REGNUM. lia. }
  unfold microblaze_extract_return_value, cooked_read.
  rewrite Hr3, Hr4'.
  destruct Hlen as [-> | [-> | ->]]; simpl in Hval |- *;
    repeat (destruct valbuf as [|? valbuf]; try discriminate Hval);
    reflexivity.
Qed.

Lemma store_then_extract_small_value_witness :
  exists regcache',
    microblaze_store_return_value 4 (<[4 := [xaa; xbb; xcc; xdd]]> ∅)
      [x12; x34; x56; x78]
    = Returned regcache'
    /\ microblaze_extract_return_value 4 regcache' (replicate 8 xff)
       = Returned [x12; x34; x56; x78].
Proof.
  apply (store_then_extract_small_value 4 (<[4 := [xaa; xbb; xcc; xdd]]> ∅)
           [x12; x34; x56; x78] (replicate 8 xff) [xaa; xbb; xcc; xdd]);
    [right; right; reflexivity|reflexivity|reflexivity].
Defined.

(** X13.  The two functions do not accept the same sizes.  The store takes
    every size up to four bytes (and eight); the extraction takes 1, 2, 4
    and 8 only and ends in [internal_error] for every other size, whatever
    the registers hold.  So a value of three bytes (or of none) that was
    stored cannot be extracted. *)
Theorem sizes_stored_but_not_extracted (len : Z)
    (regcache : gmap Z (list byte)) (valbuf buf : list byte) :
  len <> 1 -> len <> 2 -> len <> 4 -> len <> 8 ->
  (forall regcache0,
     microblaze_extract_return_value len regcache0 buf = Raised internal_error)
  /\ (len <= 4 ->
      exists regcache',
        microblaze_store_return_value len regcache valbuf = Returned regcache'
        /\ microblaze_extract_return_value len regcache' buf
           = Raised internal_error)
  /\ (4 < len ->
      microblaze_store_return_value len regcache valbuf
      = Raised internal_error).
Proof.
  intros H1 H2 H4 H8.
  assert (Hextract : forall regcache0,
             microblaze_extract_return_value len regcache0 buf
             = Raised internal_error).
  { intros regcache0. unfold microblaze_extract_return_value.
    destruct (Z.eqb_spec len 1); [contradiction|].
    destruct (Z.eqb_spec len 2); [contradiction|].
    destruct (Z.eqb_spec len 4); [contradiction|].
    destruct (Z.eqb_spec len 8); [contradiction|]. reflexivity. }
  split; [exact Hextract|]. split.
  - intros Hle. unfold microblaze_store_return_value.
    destruct (Z.ltb_spec 4 len); [lia|].
    eexists. split; [reflexivity|apply Hextract].
  - intros Hgt. unfold microblaze_store_return_value.
    destruct (Z.ltb_spec 4 len); [|lia].
    destruct (Z.eqb_spec len 8); [contradiction|reflexivity].
Qed.

Lemma sizes_stored_but_not_extracted_witness :
  exists regcache',
    microblaze_store_return_value 3 ∅ [x12; x34; x56] = Returned regcache'
    /\ regcache' !! 3 = Some [x00; x12; x34; x56]
    /\ microblaze_extract_return_value 3 regcache' (replicate 8 x00)
       = Raised internal_error.
Proof.
  destruct (sizes_stored_but_not_extracted 3 ∅ [x12; x34; x56]
              (replicate 8 x00))
    as (_ & Hstore & _); try discriminate.
  destruct (Hstore ltac:(lia)) as (regcache' & Hs & He).
  exists regcache'. split; [exact Hs|]. split; [|exact He].
  unfold microblaze_store_return_value in Hs. simpl in Hs.
  injection Hs as <-. reflexivity.
Defined.

(** X14.  The store writes r3, and r4 for a value of eight bytes, and no
    other register, for every size it accepts. *)
Theorem store_writes_return_registers_only (len : Z)
    (regcache regcache' : gmap Z (list byte)) (valbuf : list byte)
    (regnum : Z) :
  microblaze_store_return_value len regcache valbuf = Returned regcache' ->
  regnum <> MICROBLAZE_RETVAL_REGNUM ->
  regnum <> MICROBLAZE_RETVAL_REGNUM + 1 \/ len <> 8 ->
  regcache' !! regnum = regcache !! regnum.
Proof.
  unfold microblaze_store_return_value, cooked_write.
  intros Hstore Hr3 Hr4.
  destruct (4 <? len); [destruct (Z.eqb_spec len 8)|].
  - injection Hstore as <-. destruct Hr4 as [Hr4|Hr4]; [|contradiction].
    by rewrite !lookup_insert_ne.
  - discriminate.
  - injection Hstore as <-. by rewrite lookup_insert_ne.
Qed.

Lemma store_writes_return_registers_only_witness :
  (<[4 := [x89; xab; xcd; xef]]>
     (<[3 := [x01; x23; x45; x67]]>
        (<[5 := [xaa; xbb; xcc; xdd]]> ∅)) : gmap Z (list byte)) !! 5
  = (<[5 := [xaa; xbb; xcc; xdd]]> ∅ : gmap Z (list byte)) !! 5.
Proof.
  apply (store_writes_return_registers_only 8
           (<[5 := [xaa; xbb; xcc; xdd]]> ∅) _
           [x01; x23; x45; x67; x89; xab; xcd; xef] 5).
  - vm_compute. reflexivity.
  - discriminate.
  - left. discriminate.
Defined.

(** * Further properties of the register tables *)

Lemma microblaze_register_names_length :
  length microblaze_register_names = MICROBLAZE_NUM_REGS.
Proof. reflexivity. Qed.

Lemma microblaze_register_names_NoDup : NoDup microblaze_register_names.
Proof. apply (bool_decide_unpack _). vm_compute. exact I. Qed.

(** X15.  [microblaze_register_name] gives a name exactly for the register
    numbers 0 to 58, and [NULL] for every other number, negative ones
    included; two registers never share a name. *)
Theorem register_names_defined_and_distinct (i j : Z) :
  (is_Some (microblaze_register_name i)
   <-> 0 <= i < Z.of_nat MICROBLAZE_NUM_REGS)
  /\ (is_Some (microblaze_register_name i) ->
      microblaze_register_name i = microblaze_register_name j -> i = j).
Proof.
  assert (Hdef : forall k, is_Some (microblaze_register_name k)
                           <-> 0 <= k < Z.of_nat MICROBLAZE_NUM_REGS).
  { intros k. unfold microblaze_register_name.
    rewrite microblaze_register_names_length.
    destruct (Z.leb_spec 0 k), (Z.ltb_spec k (Z.of_nat MICROBLAZE_NUM_REGS));
      simpl; split; try lia; try (intros [? [=]]).
    apply lookup_lt_is_Some.
    rewrite microblaze_register_names_length. lia. }
  split; [apply Hdef|].
  intros Hi Heq.
  assert (Hj : is_Some (microblaze_register_name j)) by (by rewrite <- Heq).
  apply Hdef in Hi, Hj. destruct Hi as [Hi0 Hi1], Hj as [Hj0 Hj1].
  unfold microblaze_register_name in Heq.
  rewrite microblaze_register_names_length in Heq.
  destruct (Z.leb_spec 0 i), (Z.ltb_spec i (Z.of_nat MICROBLAZE_NUM_REGS));
    try lia.
  destruct (Z.leb_spec 0 j), (Z.ltb_spec j (Z.of_nat MICROBLAZE_NUM_REGS));
    try lia.
  simpl in Heq.
  destruct (microblaze_register_names !! Z.to_nat i) as [name|] eqn:Hname.
  - assert (Z.to_nat i = Z.to_nat j); [|lia].
    eapply NoDup_lookup; [apply microblaze_register_names_NoDup| |];
      [exact Hname|by rewrite <- Heq].
  - apply lookup_ge_None in Hname.
    rewrite microblaze_register_names_length in Hname. lia.
Qed.

(** X16.  Inside its table [microblaze_dwarf2_reg_to_regnum] gives either
    -1 or the number of a register that has a name; the DWARF numbers 0 to
    31 are the general registers of the same number. *)
Theorem dwarf2_map_gives_named_registers (reg : Z) :
  0 <= reg < 78 ->
  exists regnum,
    microblaze_dwarf2_reg_to_regnum reg = Some regnum
    /\ (regnum = -1 \/ is_Some (microblaze_register_name regnum))
    /\ (reg < 32 -> regnum = reg).
Proof.
  intros Hreg.
  assert (Hnat : exists n : nat, reg = Z.of_nat n /\ (n < 78)%nat).
  { exists (Z.to_nat reg). lia. }
  destruct Hnat as (n & -> & Hn).
  do 78 (destruct n as [|n];
         [eexists; split; [reflexivity|];
          split; [first [left; reflexivity | right; by eexists]|];
          first [reflexivity | intros Hlt; exfalso; lia]|]).
  lia.
Qed.

Lemma dwarf2_map_gives_named_registers_witness :
  exists regnum,
    microblaze_dwarf2_reg_to_regnum 67 = Some regnum
    /\ (regnum = -1 \/ is_Some (microblaze_register_name regnum))
    /\ (67 < 32 -> regnum = 67).
Proof. apply (dwarf2_map_gives_named_registers 67). lia. Defined.

(** * Properties of the frame functions *)

Lemma clear_offsets_loop_fields from count cache :
  let cache' := clear_offsets_loop from count cache in
  base cache' = base cache /\ pc cache' = pc cache
  /\ frameless_p cache' = frameless_p cache
  /\ framesize cache' = framesize cache
  /\ fp_regnum cache' = fp_regnum cache
  /\ length (register_offsets cache') = length (register_offsets cache).
Proof.
  revert from cache. induction count as [|count IH]; intros from cache;
    simpl; [repeat split|].
  destruct (IH (from + 1) (set_register_offset from (-1) cache))
    as (-> & -> & -> & -> & -> & ->). simpl.
  repeat split. destruct (0 <=? from); [apply length_insert|reflexivity].
Qed.

Lemma clear_offsets_loop_lookup from count cache (n : nat) :
  0 <= from ->
  register_offsets (clear_offsets_loop from count cache) !! n
  = if bool_decide (Z.to_nat from <= n < Z.to_nat from + count)%nat
    then (fun _ => -1) <$> register_offsets cache !! n
    else register_offsets cache !! n.
Proof.
  revert from cache. induction count as [|count IH]; intros from cache Hfrom;
    simpl.
  - rewrite bool_decide_eq_false_2 by lia. reflexivity.
  - rewrite IH by lia. unfold set_register_offset; simpl.
    destruct (Z.leb_spec 0 from); [|lia].
    destruct (decide (n = Z.to_nat from)) as [->|Hne].
    + rewrite bool_decide_eq_false_2 by lia.
      rewrite bool_decide_eq_true_2 by lia.
      destruct (decide (Z.to_nat from < length (register_offsets cache))%nat).
      * rewrite list_lookup_insert_eq by lia.
        destruct (lookup_lt_is_Some_2 (register_offsets cache)
                    (Z.to_nat from)) as [x ->]; [lia|]. reflexivity.
      * rewrite list_insert_ge by lia.
        rewrite (lookup_ge_None_2 (register_offsets cache)) by lia.
        reflexivity.
    + rewrite list_lookup_insert_ne by lia.
      destruct (decide (Z.to_nat from <= n < Z.to_nat from + S count)%nat).
      * rewrite !bool_decide_eq_true_2 by lia. reflexivity.
      * rewrite !bool_decide_eq_false_2 by lia. reflexivity.
Qed.

(** X17.  [microblaze_frame_cache] builds the cache of a frame once: the
    call fills the slot with the cache it returns, and every later call on
    that slot, for whatever frame, returns that cache and leaves the slot
    as it is. *)
Theorem frame_cache_built_once (next_frame later_frame : frame_info)
    (this_cache : option microblaze_frame_cache) :
  let '(cache, slot) := microblaze_frame_cache_of next_frame this_cache in
  slot = Some cache
  /\ microblaze_frame_cache_of later_frame slot = (cache, slot)
  /\ (forall old, this_cache = Some old -> cache = old).
Proof.
  destruct this_cache as [old|]; simpl.
  - split; [reflexivity|]. split; [reflexivity|]. by intros ? [= ->].
  - split; [reflexivity|]. split; [reflexivity|]. discriminate.
Qed.

(** X18.  The cache of a frame that had none.  It is frameless, with frame
    size 0 and base address 0, records the frame's address in its block,
    and has offset -1 for each of the [gdbarch_num_regs] registers; the
    scanner is not run.  So for such a frame
    [microblaze_frame_base_address] is 0, [microblaze_frame_this_id] leaves
    the frame id as the caller passed it (the frame counts as the
    outermost), and [microblaze_frame_prev_register] looks the program
    counter up as register 15 and every other register as itself. *)
Theorem new_frame_cache_is_frameless_and_outermost
    {frame_id value : Type}
    (frame_id_build : CORE_ADDR -> CORE_ADDR -> frame_id)
    (trad_frame_get_prev_register : Z -> value)
    (next_frame : frame_info) (this_id : frame_id) (regnum : Z) :
  0 <= gdbarch_num_regs next_frame <= Z.of_nat MICROBLAZE_NUM_REGS ->
  let cache := fst (microblaze_frame_cache_of next_frame None) in
  (frameless_p cache = 1 /\ framesize cache = 0 /\ base cache = 0%N
   /\ pc cache = get_frame_address_in_block next_frame
   /\ length (register_offsets cache) = MICROBLAZE_NUM_REGS
   /\ forall n : nat,
        Z.of_nat n < gdbarch_num_regs next_frame ->
        register_offsets cache !! n = Some (-1))
  /\ microblaze_frame_base_address next_frame None = (0%N, Some cache)
  /\ microblaze_frame_this_id frame_id_build next_frame None this_id
     = (this_id, Some cache)
  /\ microblaze_frame_prev_register trad_frame_get_prev_register next_frame
       None regnum
     = (trad_frame_get_prev_register
          (if regnum =? MICROBLAZE_PC_REGNUM then 15 else regnum),
        Some cache).
Proof.
  intros Hregs cache.
  pose proof (clear_offsets_loop_fields 0
                (Z.to_nat (gdbarch_num_regs next_frame))
                microblaze_alloc_frame_cache)
    as (Hb & Hp & Hfl & Hfs & Hfp & Hlen).
  assert (Hcache : cache
                   = set_pc (get_frame_address_in_block next_frame)
                       (clear_offsets_loop 0
                          (Z.to_nat (gdbarch_num_regs next_frame))
                          microblaze_alloc_frame_cache)) by reflexivity.
  assert (Hfacts : frameless_p cache = 1 /\ framesize cache = 0
                   /\ base cache = 0%N).
  { rewrite Hcache. simpl. rewrite Hfl, Hfs, Hb. auto. }
  destruct Hfacts as (Hfl' & Hfs' & Hb').
  split; [|split; [|split]].
  - split; [exact Hfl'|]. split; [exact Hfs'|]. split; [exact Hb'|].
    split; [by rewrite Hcache|]. split.
    + rewrite Hcache. simpl. rewrite Hlen. apply length_replicate.
    + intros n Hn. rewrite Hcache. unfold set_pc. cbn [register_offsets].
      rewrite clear_offsets_loop_lookup by lia.
      rewrite bool_decide_eq_true_2 by lia.
      change (register_offsets microblaze_alloc_frame_cache)
        with (replicate MICROBLAZE_NUM_REGS 0).
      rewrite lookup_replicate_2; [reflexivity|].
      unfold MICROBLAZE_NUM_REGS in *. lia.
  - unfold microblaze_frame_base_address.
    change (microblaze_frame_cache_of next_frame None)
      with (cache, Some cache).
    cbv beta iota. by rewrite Hb'.
  - unfold microblaze_frame_this_id.
    change (microblaze_frame_cache_of next_frame None)
      with (cache, Some cache).
    cbv beta iota. by rewrite Hb'.
  - unfold microblaze_frame_prev_register.
    change (microblaze_frame_cache_of next_frame None)
      with (cache, Some cache).
    cbv beta iota. rewrite Hfl'. cbn [Z.eqb negb]. cbv zeta.
    destruct (Z.eqb_spec regnum MICROBLAZE_PC_REGNUM) as [->|Hpc];
      [reflexivity|].
    destruct (Z.eqb_spec regnum MICROBLAZE_SP_REGNUM) as [->|Hsp];
      reflexivity.
Qed.

Lemma new_frame_cache_is_frameless_and_outermost_witness :
  let next_frame := FrameInfo 0x1008 0 59 in
  microblaze_frame_cache_of next_frame None
  = (set_pc 0x1008 fresh_cache, Some (set_pc 0x1008 fresh_cache))
  /\ microblaze_frame_this_id (fun b p => Some (b, p)) next_frame None None
     = (None, Some (set_pc 0x1008 fresh_cache))
  /\ microblaze_frame_prev_register (fun regnum => regnum) next_frame None 32
     = (15, Some (set_pc 0x1008 fresh_cache)).
Proof.
  intros next_frame.
  destruct (new_frame_cache_is_frameless_and_outermost
              (fun b p => Some (b, p)) (fun regnum => regnum)
              next_frame None 32)
    as (_ & _ & Hid & Hreg); [vm_compute; intuition discriminate|].
  split; [reflexivity|]. split; [exact Hid|exact Hreg].
Defined.

(** * The check of a target description *)

(** X19.  A target description with registers is turned down when it has
    no core feature.  When it has the stack-protect feature, the flag that
    collected the checks of the core registers is set anew before "rslr"
    and "rshr" are checked: the description is then accepted exactly when
    the stack-protect feature has these two registers, whether or not the
    core feature has the registers it should have. *)
Theorem stack_protect_check_replaces_core_check {feature : Type}
    (tdesc_find_feature : string -> option feature)
    (tdesc_numbered_register : feature -> Z -> option string -> bool)
    (num_core_regs slr_regnum shr_regnum : Z) :
  (tdesc_find_feature "org.gnu.gdb.microblaze.core"%string = None ->
   target_description_accepted true tdesc_find_feature
     tdesc_numbered_register num_core_regs slr_regnum shr_regnum = false)
  /\ (forall core sp,
        tdesc_find_feature "org.gnu.gdb.microblaze.core"%string = Some core ->
        tdesc_find_feature "org.gnu.gdb.microblaze.stack-protect"%string
        = Some sp ->
        target_description_accepted true tdesc_find_feature
          tdesc_numbered_register num_core_regs slr_regnum shr_regnum
        = tdesc_numbered_register sp slr_regnum (Some "rslr"%string)
          && tdesc_numbered_register sp shr_regnum (Some "rshr"%string)).
Proof.
  unfold target_description_accepted. split.
  - intros ->. reflexivity.
  - intros core sp -> ->. reflexivity.
Qed.

(** A description whose core feature has no register at all and whose
    stack-protect feature has "rslr" and "rshr" is accepted. *)
Lemma stack_protect_check_replaces_core_check_witness :
  let find_feature (name : string) : option (list string) :=
    if String.eqb name "org.gnu.gdb.microblaze.core" then Some []
    else if String.eqb name "org.gnu.gdb.microblaze.stack-protect"
         then Some ["rslr"; "rshr"]%string
         else None in
  let numbered_register (f : list string) (regno : Z) (name : option string)
    : bool :=
    match name with
    | Some s => bool_decide (s ∈ f)
    | None => false
    end in
  core_registers_valid numbered_register [] 0 57 true = false
  /\ target_description_accepted true find_feature numbered_register 57 57 58
     = true.
Proof.
  intros find_feature numbered_register. split; [reflexivity|].
  rewrite (proj2 (stack_protect_check_replaces_core_check find_feature
                    numbered_register 57 57 58) [] ["rslr"; "rshr"]%string
             eq_refl eq_refl).
  reflexivity.
Defined.

(** * The further properties on the sample target *)

(** What a fetch on the sample target can give: 0 where memory is not
    readable, one of the words otherwise. *)
Lemma sample_fetch_cases base words func_start func_end sal_end a :
  let T := sample_target base words func_start func_end sal_end in
  @microblaze_fetch_instruction T a = 0
  \/ exists w, w ∈ words
       /\ @microblaze_fetch_instruction T a
          = extract_unsigned_integer (word_bytes w) BFD_ENDIAN_BIG.
Proof.
  intros T. unfold microblaze_fetch_instruction. simpl.
  unfold sample_read_code.
  destruct ((base <=? a)%N && ((a - base) mod 4 =? 0)%N); [|by left].
  destruct (words !! N.to_nat ((a - base) / 4)) as [w|] eqn:Hw; [|by left].
  right. exists w. split; [|reflexivity].
  by eapply list_elem_of_lookup_2.
Qed.

Lemma skip_prologue_never_goes_back_witness :
  let T := sample_target 0x1000
             [enc_addik_sp (-8); enc_swi_sp 15 0; enc_nop; enc_rtsd]
             0x1000 0x1010 0x1004 in
  @skip_prologue_returns T 0x1000 stale_cache 0x1008
  /\ (0x1000 <= 0x1008)%N.
Proof.
  intros T.
  assert (Hskip : @skip_prologue_returns T 0x1000 stale_cache 0x1008)
    by (exists 4%nat; vm_compute; reflexivity).
  split; [exact Hskip|].
  exact (proj2 (@skip_prologue_never_goes_back T 0x1000 stale_cache) _ Hskip).
Defined.

Lemma frame_size_comes_from_stack_adjust_witness :
  let T := sample_target 0x1000
             [enc_addik_sp (-8); enc_swi_sp 15 0; enc_nop; enc_rtsd]
             0x1000 0x1010 0 in
  let r := (0x1008%N,
            set_register_offset 15 (-8)
              (set_frameless_p 0
                 (set_framesize 8 (init_frame_info fresh_cache)))) in
  @scan_returns T 0x1000 0xffffffff fresh_cache r
  /\ @frame_size_source T (@scan_stop T 0x1000 0xffffffff) (snd r).
Proof.
  intros T r.
  assert (Hrun : @scan_returns T 0x1000 0xffffffff fresh_cache r)
    by (exists 4%nat; vm_compute; reflexivity).
  split; [exact Hrun|].
  apply (@frame_size_comes_from_stack_adjust T _ _ _ _ Hrun).
  vm_compute. discriminate.
Defined.

Lemma frame_pointer_comes_from_setup_witness :
  let T := sample_target 0x1000
             [enc_addik_sp (-8); 0x02610000; enc_nop; enc_rtsd]
             0x1000 0x1010 0 in
  let r := (0x1008%N,
            set_fp_regnum 19
              (set_frameless_p 0
                 (set_framesize 8 (init_frame_info fresh_cache)))) in
  @scan_returns T 0x1000 0xffffffff fresh_cache r
  /\ @frame_pointer_source T (@scan_stop T 0x1000 0xffffffff) (snd r).
Proof.
  intros T r.
  assert (Hrun : @scan_returns T 0x1000 0xffffffff fresh_cache r)
    by (exists 4%nat; vm_compute; reflexivity).
  split; [exact Hrun|].
  apply (@frame_pointer_comes_from_setup T _ _ _ _ Hrun).
  vm_compute. discriminate.
Defined.

Lemma scan_keeps_offsets_of_unstored_registers_witness :
  let T := sample_target 0x1000
             [enc_addik_sp (-8); enc_swi_sp 15 0; enc_nop; enc_rtsd]
             0x1000 0x1010 0 in
  let r := (0x1008%N,
            set_register_offset 15 (-8)
              (set_frameless_p 0
                 (set_framesize 8 (init_frame_info fresh_cache)))) in
  @scan_returns T 0x1000 0xffffffff fresh_cache r
  /\ register_offsets (snd r) !! 19%nat = register_offsets fresh_cache !! 19%nat.
Proof.
  intros T r.
  assert (Hrun : @scan_returns T 0x1000 0xffffffff fresh_cache r)
    by (exists 4%nat; vm_compute; reflexivity).
  split; [exact Hrun|].
  apply (@scan_keeps_offsets_of_unstored_registers T 19 _ _ _ _ Hrun).
  intros a _.
  destruct (sample_fetch_cases 0x1000
              [enc_addik_sp (-8); enc_swi_sp 15 0; enc_nop; enc_rtsd]
              0x1000 0x1010 0 a) as [Hz|(w & Hin & Hw)].
  - fold T in Hz. rewrite Hz. vm_compute. discriminate.
  - fold T in Hw. rewrite Hw.
    repeat (apply elem_of_cons in Hin as [->|Hin];
            [vm_compute; intros; discriminate|]).
    by apply elem_of_nil in Hin.
Defined.

Lemma scan_never_sets_frame_base_witness :
  let T := sample_target 0x1000
             [enc_addik_sp (-8); enc_swi_sp 15 0; enc_nop; enc_rtsd]
             0x1000 0x1010 0 in
  @scan_returns T 0x1000 0xffffffff stale_cache
    (0x1008%N,
     set_register_offset 15 (-8)
       (set_frameless_p 0 (set_framesize 8 (init_frame_info stale_cache))))
  /\ base (set_register_offset 15 (-8)
             (set_frameless_p 0
                (set_framesize 8 (init_frame_info stale_cache))))
     = base stale_cache.
Proof.
  intros T.
  assert (Hrun : @scan_returns T 0x1000 0xffffffff stale_cache
                   (0x1008%N,
                    set_register_offset 15 (-8)
                      (set_frameless_p 0
                         (set_framesize 8 (init_frame_info stale_cache)))))
    by (exists 4%nat; vm_compute; reflexivity).
  split; [exact Hrun|].
  exact (proj1 (@scan_never_sets_frame_base T _ _ _ _ Hrun)).
Defined.

Lemma scan_with_empty_range_witness :
  let T := sample_target 0x1000
             [enc_addik_sp (-8); enc_swi_sp 15 0; enc_nop; enc_rtsd]
             0x1000 0x1010 0 in
  @microblaze_analyze_prologue T 0 0x1000 0x1000 stale_cache
  = Some (0%N, init_frame_info stale_cache).
Proof.
  intros T.
  apply (@scan_with_empty_range T 0x1000 0x1000 stale_cache 0).
  vm_compute. intuition discriminate.
Defined.
